(** * Start-up and shutdown orchestration of the ingress controller

    A shallow embedding of [cmd/ingress/ingress.go]: the command's [Run]
    body, [dief] and [waitForSignal] are written as small programs over the
    statements the file executes, and run by an interleaving semantics with
    one thread per goroutine, a clock, the stop channel and the signal
    channel.  The collaborators of the file (configuration loader, logger,
    JSON encoder, informer initialisation, API server) are parameters. *)

From Stdlib Require Import ZArith List String Ascii Bool Lia.
Import ListNotations.
Local Open Scope list_scope.
Local Open Scope Z_scope.

(** ** Data *)

(** [time.Duration] is an [int64] count of nanoseconds; arithmetic wraps. *)
Definition Duration := Z.

Definition wrap64 (z : Z) : Z := (z + 2 ^ 63) mod 2 ^ 64 - 2 ^ 63.

Definition Second : Duration := 1000000000.
Definition Minute : Duration := 60 * Second.

Definition dur_mul (a b : Duration) : Duration := wrap64 (a * b).

(** [syscall.Signal] is an [int]. *)
Definition Signal := Z.
Definition SIGINT : Signal := 2.
Definition SIGTERM : Signal := 15.

Definition nl : string := String (ascii_of_nat 10) EmptyString.

(** [strings.HasSuffix]. *)
Definition HasSuffix (s suffix : string) : bool :=
  let n := String.length s in
  let m := String.length suffix in
  (m <=? n)%nat && String.eqb (substring (n - m) m s) suffix.

(** The configuration object.  Its type is declared in [pkg/config]; the
    record has the fields this file binds to flags or reads. *)
Record KubernetesConfig := {
  Kubeconfig : string;
  ResyncInterval : Duration
}.

Record APISIXConfig := {
  BaseURL : string;
  AdminKey : string
}.

Record Config := {
  LogLevel : string;
  LogOutput : string;
  HTTPListen : string;
  EnableProfiling : bool;
  Kubernetes : KubernetesConfig;
  APISIX : APISIXConfig
}.

(** The command line: [None] is a flag that was not given. *)
Record Flags := {
  flag_config_path : option string;
  flag_log_level : option string;
  flag_log_output : option string;
  flag_http_listen : option string;
  flag_enable_profiling : option bool;
  flag_kubeconfig : option string;
  flag_resync_interval : option Duration;
  flag_apisix_base_url : option string;
  flag_apisix_admin_key : option string
}.

Definition flag_or {A} (default : A) (given : option A) : A :=
  match given with Some v => v | None => default end.

(** [StringVar(&configPath, "config-path", "", ...)]. *)
Definition configPath (fl : Flags) : string :=
  flag_or EmptyString (flag_config_path fl).

(** The [PersistentFlags()...Var(&cfg.X, name, default, ...)] bindings: every
    bound field holds the flag's value, or the flag's default. *)
Definition bind_flags (fl : Flags) (cfg : Config) : Config :=
  {| LogLevel := flag_or "info"%string (flag_log_level fl);
     LogOutput := flag_or "stderr"%string (flag_log_output fl);
     HTTPListen := flag_or ":8080"%string (flag_http_listen fl);
     EnableProfiling := flag_or true (flag_enable_profiling fl);
     Kubernetes :=
       {| Kubeconfig := flag_or EmptyString (flag_kubeconfig fl);
          ResyncInterval := flag_or Minute (flag_resync_interval fl) |};
     APISIX :=
       {| BaseURL := flag_or EmptyString (flag_apisix_base_url fl);
          AdminKey := flag_or EmptyString (flag_apisix_admin_key fl) |} |}.

(** The collaborators of the file, as their results: an error is its text. *)
Record World := {
  NewDefaultConfig : Config;
  NewConfigFromFile : string -> Config + string;
  NewLogger : string -> string -> option string;
  MarshalIndent : Config -> string * option string;
  InitInformer : Config -> option string;
  NewServer : Config -> option string;
  Getenv : string -> string
}.

Inductive ResourceKind :=
| Endpoints | ApisixRoute | ApisixUpstream | ApisixService | ApisixTLS.

Inductive Factory := CoreSharedInformerFactory | SharedInformerFactory.

(** Modelled from the spec: the watchers [c.Endpoint()], [c.ApisixRoute()],
    ... live in [pkg/ingress/controller]; the spec puts network endpoints in
    the core group and routes, upstreams, services and TLS bindings in the
    custom-resource group, each group delivered by its own factory. *)
Definition factory_of (k : ResourceKind) : Factory :=
  match k with
  | Endpoints => CoreSharedInformerFactory
  | _ => SharedInformerFactory
  end.

Definition kind_eqb (a b : ResourceKind) : bool :=
  match a, b with
  | Endpoints, Endpoints | ApisixRoute, ApisixRoute
  | ApisixUpstream, ApisixUpstream | ApisixService, ApisixService
  | ApisixTLS, ApisixTLS => true
  | _, _ => false
  end.

(** ** Programs *)

(** An argument of a formatted log line. *)
Inductive value :=
| VSignal (sg : Signal)          (* [sig] *)
| VSignalString (sg : Signal).   (* [sig.String()] *)

(** The statements of the file that do not block. *)
Inductive prim :=
| Fprintf_Stderr (template : string) (args : list string)
| Os_Exit (code : Z)
| Config_NewConfigFromFile (path : string)
| Log_NewLogger (level output : string)
| Set_DefaultLogger               (* [log.DefaultLogger = logger] *)
| Log_Info (args : list string)
| Log_Infof (template : string) (args : list value)
| Json_MarshalIndent (cfg : Config)
| Conf_SetBaseUrl (url : string)
| Kube_InitInformer (cfg : Config)
| Metrics_NewPrometheusCollector (podName podNamespace : string)
| Collector_ResetLeader (leader : bool)
| Kube_GetKubeClient
| Kube_GetApisixClient
| Api6Informers_NewSharedInformerFactory (resync : Duration)
| Make_Stop                       (* [stop := make(chan struct{})] *)
| Set_EndpointsInformer           (* [kube.EndpointsInformer = epInformer] *)
| RegisterHandler (k : ResourceKind)     (* [c.Endpoint()], [c.ApisixRoute()], ... *)
| Factory_Start (f : Factory)     (* [f.Start(stop)] *)
| Api_NewServer (cfg : Config)
| Make_SigCh                      (* [sigCh := make(chan os.Signal, 1)] *)
| Signal_Notify (sigs : list Signal)
| Close_Stop                      (* [close(stopCh)] *)
| Return.                         (* the command's [Run] returns *)

Inductive proc :=
| Done
| Do (a : prim) (k : proc)
| Go (child : proc) (k : proc)              (* [go child] *)
| Sleep (d : Duration) (k : proc)           (* [time.Sleep(d)] *)
| WakeAt (t : Z) (k : proc)                 (* asleep until the clock shows [t] *)
| RecvSig (k : Signal -> proc)              (* [sig := <-sigCh] *)
| SrvRun (k : option string -> proc).       (* [err := srv.Run(stop)] *)

Declare Scope proc_scope.
Delimit Scope proc_scope with proc.
Bind Scope proc_scope with proc.
Notation "a ;; k" := (Do a k) (at level 61, right associativity) : proc_scope.

(** [dief]: [os.Exit] does not return, nothing runs after it. *)
Definition dief (template : string) (args : list string) : proc :=
  let template :=
    if negb (HasSuffix template nl) then (template ++ nl)%string else template in
  (Fprintf_Stderr template args ;; Os_Exit 1 ;; Done)%proc.

(** The receive of [waitForSignal] and what follows it. *)
Definition await_signal (k : proc) : proc :=
  RecvSig (fun sig =>
    Log_Infof "signal %d (%s) received" [VSignal sig; VSignalString sig] ;;
    Close_Stop ;;
    k)%proc.

Definition waitForSignal (k : proc) : proc :=
  (Make_SigCh ;;
   Signal_Notify [SIGINT; SIGTERM] ;;
   await_signal k)%proc.

(** [go c.CoreSharedInformerFactory.Start(stop)]. *)
Definition core_task : proc :=
  (Factory_Start CoreSharedInformerFactory ;; Done)%proc.

Definition start_crd : proc :=
  (Factory_Start SharedInformerFactory ;; Done)%proc.

(** [go func() { time.Sleep(time.Duration(10) * time.Second); c.SharedInformerFactory.Start(stop) }()]. *)
Definition delayed_task : proc :=
  Sleep (dur_mul 10 Second) start_crd.

(** [go func() { if err := srv.Run(stop); err != nil { dief(...) } }()]. *)
Definition server_task : proc :=
  SrvRun (fun err =>
    match err with
    | Some e => dief "failed to launch API Server: %s" [e]
    | None => Done
    end).

(** The template [dief] hands to [fmt.Fprintf] for the server goroutine. *)
Definition launch_template : string :=
  ("failed to launch API Server: %s" ++ nl)%string.

(** What [Run] does after [waitForSignal] has returned. *)
Definition shutdown_tail : proc :=
  (Log_Info ["apisix ingress controller exited"%string] ;; Return ;; Done)%proc.

(** The [Run] function of the command from line 90 on, once [cfg] is settled. *)
Definition startup (w : World) (cfg : Config) : proc :=
  (Log_NewLogger (LogLevel cfg) (LogOutput cfg) ;;
   match NewLogger w (LogLevel cfg) (LogOutput cfg) with
   | Some err => dief "failed to initialize logging: %s" [err]
   | None =>
     Set_DefaultLogger ;;
     Log_Info ["apisix ingress controller started"%string] ;;
     Json_MarshalIndent cfg ;;
     match MarshalIndent w cfg with
     | (data, Some _) => dief "failed to show configuration: %s" [data]
     | (data, None) =>
       Log_Info [("use configuration" ++ nl)%string; data] ;;
       Conf_SetBaseUrl (BaseURL (APISIX cfg)) ;;
       Kube_InitInformer cfg ;;
       match InitInformer w cfg with
       | Some err => dief "failed to initialize kube informers: %s" [err]
       | None =>
         let podName := Getenv w "POD_NAME" in
         let podNamespace := Getenv w "POD_NAMESPACE" in
         let podNamespace :=
           if String.eqb podNamespace "" then "default"%string
           else podNamespace in
         Metrics_NewPrometheusCollector podName podNamespace ;;
         Collector_ResetLeader true ;;
         Kube_GetKubeClient ;;
         Kube_GetApisixClient ;;
         Api6Informers_NewSharedInformerFactory 0 ;;
         Make_Stop ;;
         Set_EndpointsInformer ;;
         RegisterHandler Endpoints ;;
         Go core_task (
         RegisterHandler ApisixRoute ;;
         RegisterHandler ApisixUpstream ;;
         RegisterHandler ApisixService ;;
         RegisterHandler ApisixTLS ;;
         Go delayed_task (
         Api_NewServer cfg ;;
         match NewServer w cfg with
         | Some err => dief "failed to create API Server: %s" [err]
         | None => Go server_task (waitForSignal shutdown_tail)
         end))
       end
     end
   end)%proc.

(** The [Run] function of the command, lines 82 to 168. *)
Definition Run (w : World) (fl : Flags) : proc :=
  let cfg := bind_flags fl (NewDefaultConfig w) in
  if negb (String.eqb (configPath fl) "") then
    (Config_NewConfigFromFile (configPath fl) ;;
     match NewConfigFromFile w (configPath fl) with
     | inr err => dief "failed to initialize configuration: %s" [err]
     | inl c => startup w c
     end)%proc
  else startup w cfg.

(** ** The running process *)

Inductive chan_state := NoChan | Open | Closed.

Inductive event :=
| EvDo (a : prim)
| EvGo (child : nat)            (* a goroutine was created, as thread [child] *)
| EvSleep (d : Duration)
| EvWake
| EvRecv (sg : Signal)
| EvSrvReturn (err : option string)
| EvPanic (msg : string).

Record entry := {
  e_time : Z;                   (* the clock, in nanoseconds *)
  e_tid : nat;                  (* 0 is the main flow *)
  e_ev : event
}.

Record State := {
  clock : Z;
  threads : list proc;
  stop : chan_state;            (* the stop channel *)
  sigCh : list Signal;          (* the buffered signal channel, capacity 1 *)
  notified : list Signal;       (* the signals relayed by [signal.Notify] *)
  exit_code : option Z;         (* the process has exited with this status *)
  hist : list entry             (* what happened, newest first *)
}.

Definition with_threads (ts : list proc) (s : State) : State :=
  {| clock := clock s; threads := ts; stop := stop s; sigCh := sigCh s;
     notified := notified s; exit_code := exit_code s; hist := hist s |}.

Definition with_stop (c : chan_state) (s : State) : State :=
  {| clock := clock s; threads := threads s; stop := c; sigCh := sigCh s;
     notified := notified s; exit_code := exit_code s; hist := hist s |}.

Definition with_sigCh (q : list Signal) (s : State) : State :=
  {| clock := clock s; threads := threads s; stop := stop s; sigCh := q;
     notified := notified s; exit_code := exit_code s; hist := hist s |}.

Definition with_notified (n : list Signal) (s : State) : State :=
  {| clock := clock s; threads := threads s; stop := stop s; sigCh := sigCh s;
     notified := n; exit_code := exit_code s; hist := hist s |}.

Definition with_exit (c : Z) (s : State) : State :=
  {| clock := clock s; threads := threads s; stop := stop s; sigCh := sigCh s;
     notified := notified s; exit_code := Some c; hist := hist s |}.

Definition with_clock (t : Z) (s : State) : State :=
  {| clock := t; threads := threads s; stop := stop s; sigCh := sigCh s;
     notified := notified s; exit_code := exit_code s; hist := hist s |}.

Definition with_hist (h : list entry) (s : State) : State :=
  {| clock := clock s; threads := threads s; stop := stop s; sigCh := sigCh s;
     notified := notified s; exit_code := exit_code s; hist := h |}.

Fixpoint set_nth {A} (i : nat) (x : A) (l : list A) : list A :=
  match l, i with
  | [], _ => []
  | _ :: l, O => x :: l
  | y :: l, S i => y :: set_nth i x l
  end.

(** Modelled from the spec: the caller of the command's [Run] is outside
    this file; the spec gives exit code 0 for the return that follows a
    termination signal. *)
Definition return_status : Z := 0.

(** The status of a process that dies of a run-time panic of Go. *)
Definition panic_status : Z := 2.

(** One statement that does not block.  Closing a channel that is not open
    is a run-time panic. *)
Definition exec_prim (a : prim) (s : State) : event * State :=
  match a with
  | Os_Exit c => (EvDo a, with_exit c s)
  | Return => (EvDo a, with_exit return_status s)
  | Make_Stop => (EvDo a, with_stop Open s)
  | Close_Stop =>
    match stop s with
    | Open => (EvDo a, with_stop Closed s)
    | Closed => (EvPanic "close of closed channel", with_exit panic_status s)
    | NoChan => (EvPanic "close of nil channel", with_exit panic_status s)
    end
  | Make_SigCh => (EvDo a, with_sigCh [] s)
  | Signal_Notify sigs => (EvDo a, with_notified (sigs ++ notified s) s)
  | _ => (EvDo a, s)
  end.

(** One step of a thread: the event, the rest of the thread, the new state;
    [None] when the thread is blocked or finished. *)
Definition thread_step (s : State) (p : proc) : option (event * proc * State) :=
  match p with
  | Done => None
  | Do a k => let (ev, s') := exec_prim a s in Some (ev, k, s')
  | Go child k =>
    Some (EvGo (List.length (threads s)), k, with_threads (threads s ++ [child]) s)
  | Sleep d k => Some (EvSleep d, WakeAt (clock s + Z.max 0 d) k, s)
  | WakeAt t k => if t <=? clock s then Some (EvWake, k, s) else None
  | RecvSig k =>
    match sigCh s with
    | sg :: q => Some (EvRecv sg, k sg, with_sigCh q s)
    | [] => None
    end
  | SrvRun _ => None
  end.

Definition commit (s : State) (tid : nat) (ev : event) (p : proc) (s' : State) : State :=
  with_hist ({| e_time := clock s; e_tid := tid; e_ev := ev |} :: hist s)
    (with_threads (set_nth tid p (threads s')) s').

Definition in_signals (sg : Signal) (l : list Signal) : bool :=
  existsb (Z.eqb sg) l.

(** What the scheduler and the environment can do.  A signal is relayed to
    the signal channel when [signal.Notify] has asked for it and the
    channel has room; what the Go runtime does with the signals that are
    not relayed is outside this file. *)
Inductive action :=
| ActRun (tid : nat)                          (* thread [tid] runs a statement *)
| ActTick (dt : Z)                            (* time passes *)
| ActSignal (sg : Signal)                     (* the OS delivers a signal *)
| ActSrvReturn (tid : nat) (err : option string).  (* [srv.Run] returns *)

(** Modelled from the spec: [srv.Run] is in [pkg/api]; it returns an error
    when the address cannot be bound or the server stops abnormally, and no
    error on a shutdown triggered by cancellation. *)
Definition srv_may_return (s : State) (err : option string) : bool :=
  match err, stop s with
  | Some _, _ => true
  | None, Closed => true
  | None, _ => false
  end.

Definition step (s : State) (a : action) : State :=
  match exit_code s with
  | Some _ => s
  | None =>
    match a with
    | ActRun tid =>
      match nth_error (threads s) tid with
      | Some p =>
        match thread_step s p with
        | Some (ev, p', s') => commit s tid ev p' s'
        | None => s
        end
      | None => s
      end
    | ActTick dt => with_clock (clock s + Z.max 0 dt) s
    | ActSignal sg =>
      if in_signals sg (notified s) && (List.length (sigCh s) <? 1)%nat
      then with_sigCh (sigCh s ++ [sg]) s
      else s
    | ActSrvReturn tid err =>
      match nth_error (threads s) tid with
      | Some (SrvRun k) =>
        if srv_may_return s err
        then commit s tid (EvSrvReturn err) (k err) s
        else s
      | _ => s
      end
    end
  end.

Definition run (s : State) (sched : list action) : State :=
  fold_left step sched s.

Definition init (w : World) (fl : Flags) : State :=
  {| clock := 0; threads := [Run w fl]; stop := NoChan; sigCh := [];
     notified := []; exit_code := None; hist := [] |}.

(** The history in the order of time. *)
Definition trace (s : State) : list entry := rev (hist s).

Definition events (s : State) : list (nat * event) :=
  map (fun e => (e_tid e, e_ev e)) (trace s).

(** ** Histories

    The statements a thread has executed are read off the history; the
    predicates below say which entry may follow which history. *)

(** The delay of the delayed goroutine: [time.Duration(10) * time.Second]. *)
Definition warmup_delay : Duration := dur_mul 10 Second.

Definition lhist (tid : nat) (h : list entry) : list entry :=
  filter (fun e => Nat.eqb (e_tid e) tid) h.

Definition proj (tid : nat) (h : list entry) : list event :=
  map e_ev (lhist tid h).

(** The exit status an event ends the process with. *)
Definition terminal (ev : event) : option Z :=
  match ev with
  | EvDo (Os_Exit c) => Some c
  | EvDo Return => Some return_status
  | EvPanic _ => Some panic_status
  | _ => None
  end.

Fixpoint count_go (h : list event) : nat :=
  match h with
  | [] => O
  | EvGo _ :: h => S (count_go h)
  | _ :: h => count_go h
  end.

Fixpoint stop_of (h : list event) : chan_state :=
  match h with
  | [] => NoChan
  | EvDo Close_Stop :: _ => Closed
  | EvDo Make_Stop :: _ => Open
  | _ :: h => stop_of h
  end.

Fixpoint notif_of (h : list event) : list Signal :=
  match h with
  | [] => []
  | EvDo (Signal_Notify sigs) :: h => sigs ++ notif_of h
  | _ :: h => notif_of h
  end.

Fixpoint registered (k : ResourceKind) (h : list event) : bool :=
  match h with
  | [] => false
  | EvDo (RegisterHandler k') :: h => kind_eqb k k' || registered k h
  | _ :: h => registered k h
  end.

Definition is_open (c : chan_state) : bool :=
  match c with Open => true | _ => false end.

Definition is_nochan (c : chan_state) : bool :=
  match c with NoChan => true | _ => false end.

Definition two_signals (l : list Signal) : bool :=
  match l with
  | [a; b] => (a =? SIGINT) && (b =? SIGTERM)
  | _ => false
  end.

Definition subscribed (h : list event) : bool := two_signals (notif_of h).

Definition ended (h : list event) : bool :=
  match h with
  | ev :: _ => match terminal ev with Some _ => true | None => false end
  | [] => false
  end.

(** What the main flow may execute after the events [h] (newest first). *)
Definition ok_prim (h : list event) (a : prim) : bool :=
  match a with
  | Factory_Start _ => false
  | Make_Stop => is_nochan (stop_of h)
  | Close_Stop =>
    is_open (stop_of h) &&
    match h with
    | EvDo (Log_Infof _ _) :: EvRecv _ :: _ => true
    | _ => false
    end
  | Return =>
    match h with
    | EvDo (Log_Info _) :: EvDo Close_Stop :: EvDo (Log_Infof _ _) :: EvRecv _ :: _ => true
    | _ => false
    end
  | Os_Exit c =>
    (c =? 1) &&
    match h with
    | EvDo (Fprintf_Stderr t _) :: _ => HasSuffix t nl
    | _ => false
    end
  | Signal_Notify sigs =>
    two_signals sigs && match notif_of h with [] => true | _ => false end
  | _ => true
  end.

Definition ok_go (h : list event) (child : proc) : Prop :=
  match count_go h with
  | 0%nat =>
    child = core_task /\ registered Endpoints h = true /\ stop_of h = Open
  | 1%nat =>
    child = delayed_task /\
    registered ApisixRoute h = true /\ registered ApisixUpstream h = true /\
    registered ApisixService h = true /\ registered ApisixTLS h = true
  | 2%nat => child = server_task
  | _ => False
  end.

Inductive main_ok : list event -> proc -> Prop :=
| mo_done h : ended h = true -> main_ok h Done
| mo_do h a k :
    ok_prim h a = true -> main_ok (EvDo a :: h) k -> main_ok h (Do a k)
| mo_go h child k :
    ok_go h child -> main_ok (EvGo (S (count_go h)) :: h) k ->
    main_ok h (Go child k)
| mo_recv h :
    subscribed h = true ->
    (forall sg, main_ok (EvDo Close_Stop ::
                         EvDo (Log_Infof "signal %d (%s) received"
                                 [VSignal sg; VSignalString sg]) ::
                         EvRecv sg :: h) shutdown_tail) ->
    is_open (stop_of h) = true ->
    main_ok h (await_signal shutdown_tail).

Definition main_emit (h : list event) (ev : event) : Prop :=
  match ev with
  | EvDo a => ok_prim h a = true
  | EvGo n => n = S (count_go h) /\ exists child, ok_go h child
  | EvRecv sg => (sg = SIGINT \/ sg = SIGTERM) /\ subscribed h = true
  | _ => False
  end.

Definition spawned (tid : nat) (h : list entry) : Prop :=
  exists g, In g h /\ e_tid g = O /\ e_ev g = EvGo tid.

(** The code a goroutine is left with after the entries it has made
    (newest first). *)
Inductive core_st : list event -> proc -> Prop :=
| cs_init : core_st [] core_task
| cs_started :
    core_st [EvDo (Factory_Start CoreSharedInformerFactory)] Done.

Inductive delayed_st : list entry -> proc -> Prop :=
| ds_init : delayed_st [] delayed_task
| ds_asleep sl :
    e_ev sl = EvSleep warmup_delay ->
    delayed_st [sl] (WakeAt (e_time sl + warmup_delay) start_crd)
| ds_awake wk sl :
    e_ev wk = EvWake -> e_ev sl = EvSleep warmup_delay ->
    e_time sl + warmup_delay <= e_time wk ->
    delayed_st [wk; sl] start_crd
| ds_started st wk sl :
    e_ev st = EvDo (Factory_Start SharedInformerFactory) ->
    e_ev wk = EvWake -> e_ev sl = EvSleep warmup_delay ->
    e_time sl + warmup_delay <= e_time wk ->
    delayed_st [st; wk; sl] Done.

Inductive server_st : list event -> proc -> Prop :=
| ss_init : server_st [] server_task
| ss_clean : server_st [EvSrvReturn None] Done
| ss_failed err :
    server_st [EvSrvReturn (Some err)]
      (Fprintf_Stderr launch_template [err] ;; Os_Exit 1 ;; Done)%proc
| ss_written err :
    server_st [EvDo (Fprintf_Stderr launch_template [err]);
               EvSrvReturn (Some err)]
      (Os_Exit 1 ;; Done)%proc
| ss_exited err :
    server_st [EvDo (Os_Exit 1);
               EvDo (Fprintf_Stderr launch_template [err]);
               EvSrvReturn (Some err)]
      Done.

Definition kid_st (h : list entry) (tid : nat) (p : proc) : Prop :=
  match tid with
  | 1%nat => core_st (proj 1 h) p
  | 2%nat => delayed_st (lhist 2 h) p
  | 3%nat => server_st (proj 3 h) p
  | _ => False
  end.

Definition kid_ok (h : list entry) (tid : nat) (p : proc) : Prop :=
  spawned tid h /\ kid_st h tid p.

(** Nothing older is later than [e], and the process was alive. *)
Definition before_ok (older : list entry) (e : entry) : Prop :=
  forall o, In o older -> e_time o <= e_time e /\ terminal (e_ev o) = None.

(** The entry [e] is a statement its thread may execute after [older]. *)
Definition emit_ok (older : list entry) (e : entry) : Prop :=
  match e_tid e with
  | 0%nat => main_emit (proj 0 older) (e_ev e)
  | S i =>
    (exists p, kid_ok (e :: older) (S i) p) /\
    (e_ev e = EvSrvReturn None -> stop_of (proj 0 older) = Closed)
  end.

Definition entry_ok (older : list entry) (e : entry) : Prop :=
  before_ok older e /\ emit_ok older e.

Fixpoint hist_ok (h : list entry) : Prop :=
  match h with
  | [] => True
  | e :: older => entry_ok older e /\ hist_ok older
  end.

Record Inv (s : State) : Prop := {
  inv_threads :
    exists main kids,
      threads s = main :: kids /\
      main_ok (proj 0 (hist s)) main /\
      List.length kids = count_go (proj 0 (hist s)) /\
      forall i p, nth_error kids i = Some p -> kid_ok (hist s) (S i) p;
  inv_tids :
    forall e, In e (hist s) -> (e_tid e < List.length (threads s))%nat;
  inv_stop : stop s = stop_of (proj 0 (hist s));
  inv_notified : notified s = notif_of (proj 0 (hist s));
  inv_sigCh : forall sg, In sg (sigCh s) -> sg = SIGINT \/ sg = SIGTERM;
  inv_time : forall e, In e (hist s) -> e_time e <= clock s;
  inv_exit :
    match exit_code s with
    | None => forall e, In e (hist s) -> terminal (e_ev e) = None
    | Some c => exists e rest, hist s = e :: rest /\ terminal (e_ev e) = Some c
    end;
  inv_hist : hist_ok (hist s)
}.

(** The events of the main flow, each allowed after the earlier ones. *)
Fixpoint mhist_ok (l : list event) : Prop :=
  match l with
  | [] => True
  | ev :: l' => main_emit l' ev /\ mhist_ok l'
  end.

(** ** Sample inputs *)

Definition cfg_file : Config :=
  {| LogLevel := "debug"; LogOutput := "stdout"; HTTPListen := ":9090";
     EnableProfiling := false;
     Kubernetes := {| Kubeconfig := "/root/.kube/config"; ResyncInterval := 30 * Second |};
     APISIX := {| BaseURL := "http://apisix:9180/apisix/admin"; AdminKey := "key" |} |}%string.

(** A world in which every collaborator succeeds. *)
Definition w_good : World :=
  {| NewDefaultConfig := cfg_file;
     NewConfigFromFile := fun _ => inl cfg_file;
     NewLogger := fun _ _ => None;
     MarshalIndent := fun _ => ("{}"%string, None);
     InitInformer := fun _ => None;
     NewServer := fun _ => None;
     Getenv := fun _ => EmptyString |}.

(** A world whose configuration file cannot be read. *)
Definition w_bad_config : World :=
  {| NewDefaultConfig := cfg_file;
     NewConfigFromFile := fun _ => inr "no such file"%string;
     NewLogger := fun _ _ => None;
     MarshalIndent := fun _ => ("{}"%string, None);
     InitInformer := fun _ => None;
     NewServer := fun _ => None;
     Getenv := fun _ => EmptyString |}.

(** A world whose logger cannot be built. *)
Definition w_bad_logger : World :=
  {| NewDefaultConfig := cfg_file;
     NewConfigFromFile := fun _ => inl cfg_file;
     NewLogger := fun _ _ => Some "unknown log level"%string;
     MarshalIndent := fun _ => ("{}"%string, None);
     InitInformer := fun _ => None;
     NewServer := fun _ => None;
     Getenv := fun _ => EmptyString |}.

(** A world whose API server cannot be created. *)
Definition w_bad_server : World :=
  {| NewDefaultConfig := cfg_file;
     NewConfigFromFile := fun _ => inl cfg_file;
     NewLogger := fun _ _ => None;
     MarshalIndent := fun _ => ("{}"%string, None);
     InitInformer := fun _ => None;
     NewServer := fun _ => Some "bad listen address"%string;
     Getenv := fun _ => EmptyString |}.

Definition no_flags : Flags :=
  {| flag_config_path := None; flag_log_level := None;
     flag_log_output := None; flag_http_listen := None;
     flag_enable_profiling := None; flag_kubeconfig := None;
     flag_resync_interval := None; flag_apisix_base_url := None;
     flag_apisix_admin_key := None |}.

Definition file_flags : Flags :=
  {| flag_config_path := Some "/conf/config.json"%string;
     flag_log_level := Some "error"%string;
     flag_log_output := None; flag_http_listen := None;
     flag_enable_profiling := None; flag_kubeconfig := None;
     flag_resync_interval := None; flag_apisix_base_url := None;
     flag_apisix_admin_key := None |}.

Definition file_flags' : Flags :=
  {| flag_config_path := Some "/conf/config.json"%string;
     flag_log_level := Some "warn"%string;
     flag_log_output := Some "/dev/null"%string;
     flag_http_listen := Some ":1"%string;
     flag_enable_profiling := Some false; flag_kubeconfig := None;
     flag_resync_interval := Some Second;
     flag_apisix_base_url := Some "http://other"%string;
     flag_apisix_admin_key := None |}.

(** The main flow runs alone until it waits for a signal: 25 statements. *)
Definition sched_startup : list action := repeat (ActRun 0) 25.

(** Both factories are started, the second after ten seconds. *)
Definition sched_started : list action :=
  sched_startup ++
  [ActRun 1; ActRun 2; ActTick (10 * Second); ActRun 2; ActRun 2].

(** SIGTERM arrives a microsecond before the ten seconds are over; the main
    flow receives it, logs it and closes the stop channel; the delayed
    goroutine wakes at ten seconds and runs before the main flow has logged
    its exit and returned. *)
Definition sched_cancel_then_wake : list action :=
  sched_startup ++
  [ActRun 1; ActRun 2; ActTick (10 * Second - 1000); ActSignal SIGTERM;
   ActRun 0; ActRun 0; ActRun 0;
   ActTick 1000; ActRun 2; ActRun 2; ActRun 0; ActRun 0].

(** The same, up to the moment the delayed goroutine has woken. *)
Definition sched_cancel_woken : list action :=
  sched_startup ++
  [ActRun 1; ActRun 2; ActTick (10 * Second - 1000); ActSignal SIGTERM;
   ActRun 0; ActRun 0; ActRun 0;
   ActTick 1000; ActRun 2].

(** SIGINT arrives and the main flow closes the stop channel. *)
Definition sched_closed : list action :=
  sched_startup ++ [ActSignal SIGINT; ActRun 0; ActRun 0; ActRun 0].

(** How often the schedule runs the main flow, and the server goroutine. *)
Definition count_main (sched : list action) : nat :=
  List.length (filter (fun a => match a with ActRun O => true | _ => false end) sched).

Definition count_server (sched : list action) : nat :=
  List.length (filter (fun a => match a with ActRun 3 => true | _ => false end) sched).

(** The reading of "the delayed start is skipped once cancellation has
    fired": no entry starting the custom-resource factory comes after the
    entry closing the stop channel. *)
Definition delayed_start_skipped (w : World) (fl : Flags) (sched : list action) : Prop :=
  forall newer e mid c older,
    hist (run (init w fl) sched) = newer ++ e :: mid ++ c :: older ->
    e_ev c = EvDo Close_Stop ->
    e_ev e <> EvDo (Factory_Start SharedInformerFactory).

Definition no_entry : entry := {| e_time := 0; e_tid := 0; e_ev := EvWake |}.

(** ** Failures of the initialisation *)

(** A straight line of statements. *)
Fixpoint seq_prims (l : list prim) : proc :=
  match l with
  | [] => Done
  | a :: l => Do a (seq_prims l)
  end.

(** The statements that leave the state of the process as it is. *)
Definition plain (a : prim) : bool :=
  match a with
  | Os_Exit _ | Return | Make_Stop | Close_Stop | Make_SigCh
  | Signal_Notify _ => false
  | _ => true
  end.

(** The configuration input is invalid or the logger cannot be built: the
    template and the error [Run] hands to [dief]. *)
Definition logger_failure (w : World) (cfg : Config) : option (string * string) :=
  match NewLogger w (LogLevel cfg) (LogOutput cfg) with
  | Some err => Some ("failed to initialize logging: %s"%string, err)
  | None => None
  end.

Definition early_failure (w : World) (fl : Flags) : option (string * string) :=
  if String.eqb (configPath fl) "" then
    logger_failure w (bind_flags fl (NewDefaultConfig w))
  else
    match NewConfigFromFile w (configPath fl) with
    | inr err => Some ("failed to initialize configuration: %s"%string, err)
    | inl c => logger_failure w c
    end.

(** The statements executed before the diagnostic of an early failure. *)
Definition early_prefix (w : World) (fl : Flags) : list prim :=
  if String.eqb (configPath fl) "" then
    let cfg := bind_flags fl (NewDefaultConfig w) in
    [Log_NewLogger (LogLevel cfg) (LogOutput cfg)]
  else
    match NewConfigFromFile w (configPath fl) with
    | inr _ => [Config_NewConfigFromFile (configPath fl)]
    | inl c => [Config_NewConfigFromFile (configPath fl);
                Log_NewLogger (LogLevel c) (LogOutput c)]
    end.

(** Some step of the initialisation that [Run] reaches fails. *)
Definition startup_failure (w : World) (cfg : Config) : bool :=
  match NewLogger w (LogLevel cfg) (LogOutput cfg) with
  | Some _ => true
  | None =>
    match MarshalIndent w cfg with
    | (_, Some _) => true
    | (_, None) =>
      match InitInformer w cfg with
      | Some _ => true
      | None =>
        match NewServer w cfg with
        | Some _ => true
        | None => false
        end
      end
    end
  end.

Definition init_failure (w : World) (fl : Flags) : bool :=
  if String.eqb (configPath fl) "" then
    startup_failure w (bind_flags fl (NewDefaultConfig w))
  else
    match NewConfigFromFile w (configPath fl) with
    | inr _ => true
    | inl c => startup_failure w c
    end.

(** [dies_in p = Some (n, g)]: the thread [p] reaches [os.Exit(1)] in [n]
    statements of its own, none of which blocks, creating [g] goroutines
    on the way. *)
Fixpoint dies_in (p : proc) : option (nat * nat) :=
  match p with
  | Do (Os_Exit c) _ => if c =? 1 then Some (1%nat, O) else None
  | Do Return _ | Do Close_Stop _ => None
  | Do _ k =>
    match dies_in k with
    | Some (n, g) => Some (S n, g)
    | None => None
    end
  | Go _ k =>
    match dies_in k with
    | Some (n, g) => Some (S n, S g)
    | None => None
    end
  | _ => None
  end.

(** The history without the times. *)
Definition tagged (h : list entry) : list (nat * event) :=
  map (fun e => (e_tid e, e_ev e)) h.

(** An event that creates a goroutine, a watcher or the server, or that
    belongs to one of them. *)
Definition starts_something (ev : event) : bool :=
  match ev with
  | EvGo _ | EvSleep _ | EvWake | EvSrvReturn _ => true
  | EvDo (RegisterHandler _) | EvDo (Factory_Start _) | EvDo (Api_NewServer _)
  | EvDo Make_Stop | EvDo (Kube_InitInformer _) => true
  | _ => false
  end.

(** A world whose configuration cannot be encoded for the log: the encoder
    returns no data with its error. *)
Definition w_bad_encode : World :=
  {| NewDefaultConfig := cfg_file;
     NewConfigFromFile := fun _ => inl cfg_file;
     NewLogger := fun _ _ => None;
     MarshalIndent := fun _ => (EmptyString, Some "unsupported value"%string);
     InitInformer := fun _ => None;
     NewServer := fun _ => None;
     Getenv := fun _ => EmptyString |}.

(** A world whose informers cannot be initialised. *)
Definition w_bad_informer : World :=
  {| NewDefaultConfig := cfg_file;
     NewConfigFromFile := fun _ => inl cfg_file;
     NewLogger := fun _ _ => None;
     MarshalIndent := fun _ => ("{}"%string, None);
     InitInformer := fun _ => Some "no kubeconfig"%string;
     NewServer := fun _ => None;
     Getenv := fun _ => EmptyString |}.

(** ** The main flow in program order *)

(** The events a thread makes when it runs [p] to its end: [n] goroutines
    were created before, [sg] is the signal a receive yields.  The script
    stops at a call of [srv.Run], whose result is not the thread's to
    choose. *)
Fixpoint script (sg : Signal) (n : nat) (p : proc) : list event :=
  match p with
  | Done => []
  | Do a k => EvDo a :: script sg n k
  | Go _ k => EvGo (S n) :: script sg (S n) k
  | Sleep d k => EvSleep d :: EvWake :: script sg n k
  | WakeAt _ k => EvWake :: script sg n k
  | RecvSig k => EvRecv sg :: script sg n (k sg)
  | SrvRun _ => []
  end.

(** No receive from the signal channel is left in [p]. *)
Fixpoint recv_free (p : proc) : bool :=
  match p with
  | Done | SrvRun _ => true
  | Do _ k | Go _ k | Sleep _ k | WakeAt _ k => recv_free k
  | RecvSig _ => false
  end.

(** The main flow of [s] is where its history says: what it has done,
    followed by what is left of its code, is the script of [Run]. *)
Definition follows (w : World) (fl : Flags) (s : State) : Prop :=
  exists main,
    nth_error (threads s) 0 = Some main /\
    ((forall sg,
         script sg 0 (Run w fl) =
         rev (proj 0 (hist s)) ++ script sg (count_go (proj 0 (hist s))) main) \/
     (exists sg,
         (sg = SIGINT \/ sg = SIGTERM) /\ recv_free main = true /\
         script sg 0 (Run w fl) =
         rev (proj 0 (hist s)) ++ script sg (count_go (proj 0 (hist s))) main)).

(** The configuration [Run] goes on with after lines 83 to 89, when there
    is one. *)
Definition settled_config (w : World) (fl : Flags) : option Config :=
  if String.eqb (configPath fl) "" then Some (bind_flags fl (NewDefaultConfig w))
  else
    match NewConfigFromFile w (configPath fl) with
    | inl c => Some c
    | inr _ => None
    end.

(** The namespace handed to the metrics collector, lines 115 to 118. *)
Definition podNamespace (w : World) : string :=
  if String.eqb (Getenv w "POD_NAMESPACE") "" then "default"%string
  else Getenv w "POD_NAMESPACE".

(** The statement of [Run] that comes before [startup]. *)
Definition load_prefix (fl : Flags) : list prim :=
  if String.eqb (configPath fl) "" then []
  else [Config_NewConfigFromFile (configPath fl)].

(** The statements of [startup] in the order of the file, lines 90 to 166,
    when none of them fails: up to the wait for a signal, and after it. *)
Definition startup_events (w : World) (cfg : Config) (data : string) : list event :=
  [ EvDo (Log_NewLogger (LogLevel cfg) (LogOutput cfg));
    EvDo Set_DefaultLogger;
    EvDo (Log_Info ["apisix ingress controller started"%string]);
    EvDo (Json_MarshalIndent cfg);
    EvDo (Log_Info [("use configuration" ++ nl)%string; data]);
    EvDo (Conf_SetBaseUrl (BaseURL (APISIX cfg)));
    EvDo (Kube_InitInformer cfg);
    EvDo (Metrics_NewPrometheusCollector (Getenv w "POD_NAME") (podNamespace w));
    EvDo (Collector_ResetLeader true);
    EvDo Kube_GetKubeClient;
    EvDo Kube_GetApisixClient;
    EvDo (Api6Informers_NewSharedInformerFactory 0);
    EvDo Make_Stop;
    EvDo Set_EndpointsInformer;
    EvDo (RegisterHandler Endpoints);
    EvGo 1;
    EvDo (RegisterHandler ApisixRoute);
    EvDo (RegisterHandler ApisixUpstream);
    EvDo (RegisterHandler ApisixService);
    EvDo (RegisterHandler ApisixTLS);
    EvGo 2;
    EvDo (Api_NewServer cfg);
    EvGo 3;
    EvDo Make_SigCh;
    EvDo (Signal_Notify [SIGINT; SIGTERM]) ].

(** The statements from the receive of [waitForSignal] to the end of
    [Run], lines 50 to 52 and 167. *)
Definition shutdown_events (sg : Signal) : list event :=
  [ EvRecv sg;
    EvDo (Log_Infof "signal %d (%s) received" [VSignal sg; VSignalString sg]);
    EvDo Close_Stop;
    EvDo (Log_Info ["apisix ingress controller exited"%string]);
    EvDo Return ].

(** The events of the main flow, oldest first. *)
Definition main_events (s : State) : list event := rev (proj 0 (hist s)).

(** [ends_in p = Some n]: the thread [p] ends the process with its [n]-th
    statement from here, and none of the statements before blocks. *)
Fixpoint ends_in (p : proc) : option nat :=
  match p with
  | Do (Os_Exit _) _ | Do Return _ => Some 1%nat
  | Do _ k | Go _ k =>
    match ends_in k with
    | Some n => Some (S n)
    | None => None
    end
  | _ => None
  end.

(** The event is a receive from the signal channel. *)
Definition is_recv (ev : event) : bool :=
  match ev with EvRecv _ => true | _ => false end.

(** The event hands its collaborator the settings of [cfg]; the
    custom-resource factory is created with the resync period 0 of line
    125. *)
Definition uses_config (cfg : Config) (ev : event) : Prop :=
  match ev with
  | EvDo (Log_NewLogger l o) => l = LogLevel cfg /\ o = LogOutput cfg
  | EvDo (Json_MarshalIndent c) | EvDo (Kube_InitInformer c)
  | EvDo (Api_NewServer c) => c = cfg
  | EvDo (Conf_SetBaseUrl u) => u = BaseURL (APISIX cfg)
  | EvDo (Api6Informers_NewSharedInformerFactory d) => d = 0
  | _ => True
  end.

(** ** Basic facts *)

Lemma length_append_nl (t : string) :
  String.length (t ++ nl) = S (String.length t).
Proof. induction t as [|c t IH]; simpl; [reflexivity | now rewrite IH]. Qed.

Lemma substring_append_nl (t : string) :
  substring (String.length t) 1 (t ++ nl) = nl.
Proof. induction t as [|c t IH]; simpl; [reflexivity | exact IH]. Qed.

Lemma HasSuffix_append_nl (t : string) : HasSuffix (t ++ nl) nl = true.
Proof.
  unfold HasSuffix. rewrite length_append_nl.
  change (String.length nl) with 1%nat.
  replace (S (String.length t) - 1)%nat with (String.length t) by lia.
  rewrite substring_append_nl. reflexivity.
Qed.

(** The line [dief] writes ends with a newline, and the process exits with
    status 1 right after it. *)
Lemma dief_shape (template : string) (args : list string) :
  exists t, HasSuffix t nl = true /\
    dief template args = (Fprintf_Stderr t args ;; Os_Exit 1 ;; Done)%proc.
Proof.
  unfold dief. destruct (HasSuffix template nl) eqn:E; simpl.
  - exists template. split; [exact E | reflexivity].
  - exists (template ++ nl)%string. split; [apply HasSuffix_append_nl | reflexivity].
Qed.

Lemma main_ok_dief (h : list event) (template : string) (args : list string) :
  main_ok h (dief template args).
Proof.
  destruct (dief_shape template args) as (t & Ht & ->).
  apply mo_do; [reflexivity|].
  apply mo_do; [simpl; exact Ht|].
  apply mo_done. reflexivity.
Qed.

Lemma main_ok_shutdown_tail h sg t a :
  main_ok (EvDo Close_Stop :: EvDo (Log_Infof t a) :: EvRecv sg :: h) shutdown_tail.
Proof.
  unfold shutdown_tail.
  apply mo_do; [reflexivity|]. apply mo_do; [reflexivity|].
  apply mo_done. reflexivity.
Qed.

Lemma main_ok_startup (w : World) (cfg : Config) (h : list event) :
  count_go h = O -> stop_of h = NoChan -> notif_of h = [] ->
  main_ok h (startup w cfg).
Proof.
  intros Hg Hs Hn. unfold startup.
  apply mo_do; [reflexivity|].
  destruct (NewLogger w _ _); [apply main_ok_dief|].
  do 3 (apply mo_do; [reflexivity|]).
  destruct (MarshalIndent w cfg) as [data [e|]]; [apply main_ok_dief|].
  do 3 (apply mo_do; [reflexivity|]).
  destruct (InitInformer w cfg); [apply main_ok_dief|].
  do 5 (apply mo_do; [reflexivity|]).
  apply mo_do; [simpl; now rewrite Hs|].
  do 2 (apply mo_do; [reflexivity|]).
  apply mo_go; [unfold ok_go; simpl; rewrite Hg; auto|].
  do 4 (apply mo_do; [reflexivity|]).
  apply mo_go; [unfold ok_go; simpl; rewrite Hg; simpl; auto|].
  apply mo_do; [reflexivity|].
  destruct (NewServer w cfg); [apply main_ok_dief|].
  apply mo_go; [unfold ok_go; simpl; rewrite Hg; reflexivity|].
  unfold waitForSignal.
  apply mo_do; [reflexivity|].
  apply mo_do; [simpl; now rewrite Hn|].
  apply mo_recv.
  - unfold subscribed. simpl. rewrite Hn. reflexivity.
  - intros sg. apply main_ok_shutdown_tail.
  - reflexivity.
Qed.

Lemma main_ok_Run (w : World) (fl : Flags) : main_ok [] (Run w fl).
Proof.
  unfold Run. destruct (negb _).
  - apply mo_do; [reflexivity|].
    destruct (NewConfigFromFile w _); [|apply main_ok_dief].
    apply main_ok_startup; reflexivity.
  - apply main_ok_startup; reflexivity.
Qed.

Lemma lhist_cons (tid : nat) (e : entry) (h : list entry) :
  lhist tid (e :: h) =
  if Nat.eqb (e_tid e) tid then e :: lhist tid h else lhist tid h.
Proof. reflexivity. Qed.

Lemma lhist_cons_other (tid : nat) (e : entry) (h : list entry) :
  e_tid e <> tid -> lhist tid (e :: h) = lhist tid h.
Proof.
  intros H. rewrite lhist_cons. destruct (Nat.eqb_spec (e_tid e) tid); congruence.
Qed.

Lemma lhist_cons_same (tid : nat) (e : entry) (h : list entry) :
  e_tid e = tid -> lhist tid (e :: h) = e :: lhist tid h.
Proof.
  intros H. rewrite lhist_cons. destruct (Nat.eqb_spec (e_tid e) tid); congruence.
Qed.

Lemma proj_cons_other (tid : nat) (e : entry) (h : list entry) :
  e_tid e <> tid -> proj tid (e :: h) = proj tid h.
Proof. intros H. unfold proj. now rewrite lhist_cons_other. Qed.

Lemma proj_cons_same (tid : nat) (e : entry) (h : list entry) :
  e_tid e = tid -> proj tid (e :: h) = e_ev e :: proj tid h.
Proof. intros H. unfold proj. now rewrite lhist_cons_same. Qed.

Lemma lhist_In (tid : nat) (e : entry) (h : list entry) :
  In e (lhist tid h) <-> In e h /\ e_tid e = tid.
Proof.
  unfold lhist. rewrite filter_In.
  split; intros [H1 H2]; split; auto; now apply Nat.eqb_eq.
Qed.

Lemma proj_In (tid : nat) (ev : event) (h : list entry) :
  In ev (proj tid h) -> exists e, In e h /\ e_tid e = tid /\ e_ev e = ev.
Proof.
  unfold proj. rewrite in_map_iff. intros (e & He & Hin).
  apply lhist_In in Hin. exists e. tauto.
Qed.

Lemma spawned_cons (tid : nat) (e : entry) (h : list entry) :
  spawned tid h -> spawned tid (e :: h).
Proof. intros (g & Hg & H). exists g. split; [now right | exact H]. Qed.

Lemma kid_ok_cons_other (h : list entry) (e : entry) (tid : nat) (p : proc) :
  e_tid e <> tid -> kid_ok h tid p -> kid_ok (e :: h) tid p.
Proof.
  intros Hne [Hs Hk]. split; [now apply spawned_cons|].
  unfold kid_st, proj in *.
  destruct tid as [|[|[|[|tid]]]]; try contradiction;
    rewrite lhist_cons_other by assumption; exact Hk.
Qed.

Lemma lhist_none (tid : nat) (h : list entry) :
  (forall e, In e h -> e_tid e <> tid) -> lhist tid h = [].
Proof.
  induction h as [|e h IH]; intros H; [reflexivity|].
  rewrite lhist_cons_other by (apply H; now left).
  apply IH. intros e' He'. apply H. now right.
Qed.

Lemma nth_error_set_nth_same {A} (l : list A) (i : nat) (x y : A) :
  nth_error l i = Some y -> nth_error (set_nth i x l) i = Some x.
Proof.
  revert i. induction l as [|z l IH]; intros [|i]; simpl; try discriminate; auto.
Qed.

Lemma nth_error_set_nth_other {A} (l : list A) (i j : nat) (x : A) :
  i <> j -> nth_error (set_nth i x l) j = nth_error l j.
Proof.
  revert i j. induction l as [|z l IH]; intros [|i] [|j] H; simpl; auto;
    congruence.
Qed.

Lemma length_set_nth {A} (l : list A) (i : nat) (x : A) :
  List.length (set_nth i x l) = List.length l.
Proof. revert i. induction l as [|z l IH]; intros [|i]; simpl; auto. Qed.

Lemma registered_In (k : ResourceKind) (h : list event) :
  registered k h = true -> In (EvDo (RegisterHandler k)) h.
Proof.
  induction h as [|ev h IH]; simpl; [discriminate|].
  destruct ev as [a| | | | | |]; try (intros H; right; auto; fail).
  destruct a; try (intros H; right; auto; fail).
  intros H. apply orb_true_iff in H. destruct H as [H|H]; [|right; auto].
  left. destruct k, k0; simpl in H; try discriminate; reflexivity.
Qed.


(** After the process has exited nothing happens. *)
Lemma step_exited (s : State) (a : action) (c : Z) :
  exit_code s = Some c -> step s a = s.
Proof. intros H. unfold step. now rewrite H. Qed.

Lemma run_exited (s : State) (sched : list action) (c : Z) :
  exit_code s = Some c -> run s sched = s.
Proof.
  intros H. induction sched as [|a sched IH]; simpl; [reflexivity|].
  rewrite (step_exited s a c H). exact IH.
Qed.


(** What one non-blocking statement of the main flow does to the state. *)
Lemma exec_prim_main (s : State) (h : list event) (a : prim) :
  ok_prim h a = true -> stop s = stop_of h -> notified s = notif_of h ->
  exit_code s = None ->
  exists s', exec_prim a s = (EvDo a, s') /\
    clock s' = clock s /\ threads s' = threads s /\ hist s' = hist s /\
    stop s' = stop_of (EvDo a :: h) /\
    notified s' = notif_of (EvDo a :: h) /\
    (forall sg, In sg (sigCh s') -> In sg (sigCh s)) /\
    exit_code s' = terminal (EvDo a).
Proof.
  intros Hok Hs Hn He.
  destruct a; simpl in *; try discriminate;
    try (eexists; split; [reflexivity|]; simpl; repeat split; auto; fail).
  - eexists; split; [reflexivity|]; simpl; repeat split; auto. intros sg [].
  - eexists; split; [reflexivity|]; simpl; repeat split; auto.
    now rewrite Hn.
  - apply andb_true_iff in Hok. destruct Hok as [Hok _].
    rewrite Hs. destruct (stop_of h); try discriminate.
    eexists; split; [reflexivity|]; simpl; repeat split; auto.
Qed.

(** ** The invariant is kept by every step *)

Lemma Inv_commit (s s' : State) (tid : nat) (ev : event) (p' main' : proc)
      (kids' : list proc) :
  let e := {| e_time := clock s; e_tid := tid; e_ev := ev |} in
  Inv s -> exit_code s = None ->
  clock s' = clock s -> hist s' = hist s ->
  set_nth tid p' (threads s') = main' :: kids' ->
  (tid < List.length (threads s'))%nat ->
  (List.length (threads s) <= List.length (threads s'))%nat ->
  main_ok (proj 0 (e :: hist s)) main' ->
  List.length kids' = count_go (proj 0 (e :: hist s)) ->
  (forall i p, nth_error kids' i = Some p -> kid_ok (e :: hist s) (S i) p) ->
  stop s' = stop_of (proj 0 (e :: hist s)) ->
  notified s' = notif_of (proj 0 (e :: hist s)) ->
  (forall sg, In sg (sigCh s') -> sg = SIGINT \/ sg = SIGTERM) ->
  exit_code s' = terminal ev ->
  emit_ok (hist s) e ->
  Inv (commit s tid ev p' s').
Proof.
  intros e I Hal Hc Hh Hth Htid Hlen Hmain Hkids Hkid Hstop Hnot Hsig Hex Hem.
  assert (Hbefore : before_ok (hist s) e).
  { intros o Ho. split.
    - apply (inv_time s I o Ho).
    - pose proof (inv_exit s I) as X. rewrite Hal in X. now apply X. }
  constructor; unfold commit; simpl; fold e.
  - exists main', kids'.
    split; [exact Hth|]. split; [exact Hmain|]. split; [exact Hkids | exact Hkid].
  - rewrite length_set_nth. intros o [<-|Ho]; [exact Htid|].
    pose proof (inv_tids s I o Ho). lia.
  - exact Hstop.
  - exact Hnot.
  - exact Hsig.
  - intros o [<-|Ho]; simpl; [lia|].
    rewrite Hc. now apply (inv_time s I).
  - rewrite Hex. destruct (terminal ev) as [c|] eqn:Ht.
    + exists e, (hist s). split; [reflexivity | exact Ht].
    + intros o [<-|Ho]; [exact Ht|]. now apply Hbefore.
  - split; [split; assumption | apply (inv_hist s I)].
Qed.

Lemma Inv_main_step (s s' : State) (main p' : proc) (kids : list proc) (ev : event) :
  Inv s -> exit_code s = None -> threads s = main :: kids ->
  thread_step s main = Some (ev, p', s') ->
  Inv (commit s 0 ev p' s').
Proof.
  intros I Hal Hth Hts.
  destruct (inv_threads s I) as (main0 & kids0 & Hth0 & Hmain & Hlen & Hkid).
  rewrite Hth in Hth0. injection Hth0 as <- <-.
  inversion Hmain as [h0 Hend|h0 a k Hok Hk|h0 child k Hgo Hk|h0 Hsub Htail Hopen];
    subst; simpl in Hts.
  - discriminate.
  - (* a statement that does not block *)
    destruct (exec_prim_main s _ a Hok (inv_stop s I) (inv_notified s I) Hal)
      as (s'' & Hex & Hc & Ht & Hh & Hst & Hn & Hsg & Hx).
    rewrite Hex in Hts. injection Hts as <- <- <-.
    apply (Inv_commit s s'' 0 (EvDo a) k k kids I Hal Hc Hh).
    + rewrite Ht, Hth. reflexivity.
    + rewrite Ht, Hth. simpl. lia.
    + rewrite Ht. lia.
    + exact Hk.
    + exact Hlen.
    + intros i p Hp. apply kid_ok_cons_other; [simpl; discriminate | auto].
    + exact Hst.
    + exact Hn.
    + intros sg Hin. apply (inv_sigCh s I). auto.
    + exact Hx.
    + exact Hok.
  - (* go *)
    injection Hts as <- <- <-.
    assert (Hn : List.length (threads s) = S (count_go (proj 0 (hist s)))).
    { rewrite Hth. simpl. now rewrite Hlen. }
    rewrite Hn.
    apply (Inv_commit s (with_threads (threads s ++ [child]) s) 0 _ k k
             (kids ++ [child]) I Hal eq_refl eq_refl).
    + simpl. rewrite Hth. reflexivity.
    + simpl. rewrite Hth. simpl. lia.
    + simpl. rewrite length_app. lia.
    + exact Hk.
    + rewrite proj_cons_same by reflexivity. simpl.
      rewrite length_app. simpl. lia.
    + intros i p Hp.
      destruct (Nat.lt_ge_cases i (List.length kids)) as [Hlt|Hge].
      * rewrite nth_error_app1 in Hp by assumption.
        apply kid_ok_cons_other; [simpl; discriminate | auto].
      * rewrite nth_error_app2 in Hp by assumption.
        destruct (i - List.length kids)%nat as [|j] eqn:Hj;
          [|destruct j; discriminate].
        injection Hp as <-. assert (i = List.length kids) by lia. subst i.
        rewrite Hlen.
        assert (Hnone : lhist (S (count_go (proj 0 (hist s))))
                          ({| e_time := clock s; e_tid := 0;
                              e_ev := EvGo (S (count_go (proj 0 (hist s)))) |}
                           :: hist s) = []).
        { rewrite lhist_cons_other by (simpl; discriminate).
          apply lhist_none. intros o Ho.
          pose proof (inv_tids s I o Ho). lia. }
        split.
        -- eexists. split; [left; reflexivity|]. split; reflexivity.
        -- revert Hgo Hnone. unfold ok_go, kid_st.
           destruct (count_go (proj 0 (hist s))) as [|[|[|n]]];
             intros Hgo Hnone; try contradiction;
             unfold proj; rewrite Hnone; simpl.
           ++ destruct Hgo as [-> _]. constructor.
           ++ destruct Hgo as [-> _]. constructor.
           ++ subst child. constructor.
    + apply (inv_stop s I).
    + apply (inv_notified s I).
    + apply (inv_sigCh s I).
    + exact Hal.
    + split; [reflexivity|]. now exists child.
  - (* receive from the signal channel *)
    destruct (sigCh s) as [|sg q] eqn:Hq; [discriminate|].
    injection Hts as <- <- <-.
    assert (Hsg : sg = SIGINT \/ sg = SIGTERM).
    { apply (inv_sigCh s I). rewrite Hq. now left. }
    eapply (Inv_commit s (with_sigCh q s) 0 _ _ _ kids I Hal eq_refl eq_refl).
    + simpl. rewrite Hth. reflexivity.
    + simpl. rewrite Hth. simpl. lia.
    + simpl. lia.
    + change (proj 0 ({| e_time := clock s; e_tid := 0; e_ev := EvRecv sg |} :: hist s))
        with (EvRecv sg :: proj 0 (hist s)).
      apply mo_do; [reflexivity|].
      apply mo_do; [simpl; rewrite Hopen; reflexivity|].
      apply Htail.
    + exact Hlen.
    + intros i p Hp. apply kid_ok_cons_other; [simpl; discriminate | auto].
    + apply (inv_stop s I).
    + apply (inv_notified s I).
    + simpl. intros x Hx. apply (inv_sigCh s I). rewrite Hq. now right.
    + exact Hal.
    + split; assumption.
Qed.

Lemma Inv_kid_commit (s s' : State) (main p p' : proc) (kids : list proc)
      (i : nat) (ev : event) :
  let e := {| e_time := clock s; e_tid := S i; e_ev := ev |} in
  Inv s -> exit_code s = None ->
  threads s = main :: kids -> nth_error kids i = Some p ->
  clock s' = clock s -> hist s' = hist s -> threads s' = threads s ->
  stop s' = stop s -> notified s' = notified s -> sigCh s' = sigCh s ->
  exit_code s' = terminal ev ->
  kid_st (e :: hist s) (S i) p' ->
  (ev = EvSrvReturn None -> stop s = Closed) ->
  Inv (commit s (S i) ev p' s').
Proof.
  intros e I Hal Hth Hp Hc Hh Ht Hst Hn Hsg Hx Hkid Hret.
  destruct (inv_threads s I) as (main0 & kids0 & Hth0 & Hmain & Hlen & Hkids).
  rewrite Hth in Hth0. injection Hth0 as <- <-.
  assert (Hi : (i < List.length kids)%nat).
  { apply nth_error_Some. congruence. }
  assert (Hspawn : spawned (S i) (e :: hist s)).
  { apply spawned_cons. apply (Hkids i p Hp). }
  apply (Inv_commit s s' (S i) ev p' main (set_nth i p' kids) I Hal Hc Hh).
  - rewrite Ht, Hth. reflexivity.
  - rewrite Ht, Hth. simpl. lia.
  - rewrite Ht. lia.
  - exact Hmain.
  - rewrite length_set_nth. exact Hlen.
  - intros j q Hq. destruct (Nat.eq_dec i j) as [<-|Hne].
    + rewrite (nth_error_set_nth_same kids i p' p Hp) in Hq.
      injection Hq as <-. split; assumption.
    + rewrite nth_error_set_nth_other in Hq by assumption.
      apply kid_ok_cons_other; [simpl; congruence | auto].
  - rewrite Hst. apply (inv_stop s I).
  - rewrite Hn. apply (inv_notified s I).
  - rewrite Hsg. apply (inv_sigCh s I).
  - exact Hx.
  - split.
    + exists p'. split; assumption.
    + intros Hev. rewrite <- (inv_stop s I). now apply Hret.
Qed.

Lemma Inv_kid_step (s s' : State) (main p p' : proc) (kids : list proc)
      (i : nat) (ev : event) :
  Inv s -> exit_code s = None ->
  threads s = main :: kids -> nth_error kids i = Some p ->
  thread_step s p = Some (ev, p', s') ->
  Inv (commit s (S i) ev p' s').
Proof.
  intros I Hal Hth Hp Hts.
  destruct (inv_threads s I) as (main0 & kids0 & Hth0 & Hmain & Hlen & Hkids).
  rewrite Hth in Hth0. injection Hth0 as <- <-.
  destruct (Hkids i p Hp) as [_ Hst].
  destruct i as [|[|[|i]]]; simpl in Hst; [| | |contradiction].
  - (* the core factory's goroutine *)
    inversion Hst as [Hl Hq|Hl Hq]; subst p; simpl in Hts; [|discriminate].
    injection Hts as <- <- <-.
    apply (Inv_kid_commit s s main core_task Done kids 0 _ I Hal Hth Hp);
      try reflexivity; try discriminate; try exact Hal.
    unfold kid_st, proj. rewrite lhist_cons_same by reflexivity.
    simpl. unfold proj in Hl. rewrite <- Hl. constructor.
  - (* the delayed goroutine *)
    inversion Hst as [Hl Hq|sl Hsl Hl Hq|wk sl Hwk Hsl Hle Hl Hq
                      |st wk sl Hs Hwk Hsl Hle Hl Hq];
      subst p; simpl in Hts.
    + injection Hts as <- <- <-.
      apply (Inv_kid_commit s s main delayed_task _ kids 1 _ I Hal Hth Hp);
        try reflexivity; try discriminate; try exact Hal.
      unfold kid_st. rewrite lhist_cons_same by reflexivity. rewrite <- Hl.
      apply (ds_asleep {| e_time := clock s; e_tid := 2;
                          e_ev := EvSleep warmup_delay |}).
      reflexivity.
    + destruct (Z.leb_spec (e_time sl + warmup_delay) (clock s)) as [Hw|Hw];
        [|discriminate].
      injection Hts as <- <- <-.
      apply (Inv_kid_commit s s main _ start_crd kids 1 _ I Hal Hth Hp);
        try reflexivity; try discriminate; try exact Hal.
      unfold kid_st. rewrite lhist_cons_same by reflexivity. rewrite <- Hl.
      constructor; auto.
    + injection Hts as <- <- <-.
      apply (Inv_kid_commit s s main start_crd Done kids 1 _ I Hal Hth Hp);
        try reflexivity; try discriminate; try exact Hal.
      unfold kid_st. rewrite lhist_cons_same by reflexivity. rewrite <- Hl.
      constructor; auto.
    + discriminate.
  - (* the server's goroutine *)
    inversion Hst as [Hl Hq|Hl Hq|err Hl Hq|err Hl Hq|err Hl Hq];
      subst p; simpl in Hts; try discriminate.
    + injection Hts as <- <- <-.
      apply (Inv_kid_commit s s main _ _ kids 2 _ I Hal Hth Hp);
        try reflexivity; try discriminate; try exact Hal.
      unfold kid_st, proj. rewrite lhist_cons_same by reflexivity.
      simpl. unfold proj in Hl. rewrite <- Hl. constructor.
    + injection Hts as <- <- <-.
      apply (Inv_kid_commit s (with_exit 1 s) main _ _ kids 2 _ I Hal Hth Hp);
        try reflexivity; try discriminate; try exact Hal.
      unfold kid_st, proj. rewrite lhist_cons_same by reflexivity.
      simpl. unfold proj in Hl. rewrite <- Hl. constructor.
Qed.

Lemma Inv_srv_return (s : State) (main : proc) (kids : list proc)
      (i : nat) (k : option string -> proc) (err : option string) :
  Inv s -> exit_code s = None ->
  threads s = main :: kids -> nth_error kids i = Some (SrvRun k) ->
  srv_may_return s err = true ->
  Inv (commit s (S i) (EvSrvReturn err) (k err) s).
Proof.
  intros I Hal Hth Hp Hmay.
  destruct (inv_threads s I) as (main0 & kids0 & Hth0 & Hmain & Hlen & Hkids).
  rewrite Hth in Hth0. injection Hth0 as <- <-.
  destruct (Hkids i _ Hp) as [_ Hst].
  destruct i as [|[|[|i]]]; simpl in Hst; [| | |contradiction].
  - inversion Hst.
  - inversion Hst.
  - inversion Hst as [Hl Hq|Hl Hq|e Hl Hq|e Hl Hq|e Hl Hq].
    apply (Inv_kid_commit s s main _ _ kids 2 _ I Hal Hth Hp);
      try reflexivity; try exact Hal.
    + unfold kid_st, proj. rewrite lhist_cons_same by reflexivity.
      simpl. unfold proj in Hl. rewrite <- Hl.
      destruct err as [e|]; constructor.
    + intros Hev. injection Hev as ->. unfold srv_may_return in Hmay.
      destruct (stop s); try discriminate. reflexivity.
Qed.

Lemma two_signals_eq (l : list Signal) :
  two_signals l = true -> l = [SIGINT; SIGTERM].
Proof.
  destruct l as [|a [|b [|c l]]]; simpl; try discriminate.
  intros H. apply andb_true_iff in H. destruct H as [Ha Hb].
  apply Z.eqb_eq in Ha, Hb. now subst.
Qed.

Lemma notif_of_signals (h : list entry) :
  hist_ok h ->
  forall sg, In sg (notif_of (proj 0 h)) -> sg = SIGINT \/ sg = SIGTERM.
Proof.
  induction h as [|e h IH]; intros Hok sg Hin; [contradiction|].
  destruct Hok as [[_ Hem] Hok]. specialize (IH Hok sg).
  destruct (Nat.eq_dec (e_tid e) 0) as [He|He].
  - rewrite proj_cons_same in Hin by assumption.
    unfold emit_ok in Hem. rewrite He in Hem.
    destruct (e_ev e) as [a| | | | | |]; simpl in Hin, Hem; auto.
    destruct a; simpl in Hin, Hem; auto.
    apply andb_true_iff in Hem. destruct Hem as [Hs _].
    apply two_signals_eq in Hs. subst sigs.
    destruct Hin as [<-|[<-|Hin]]; auto.
  - rewrite proj_cons_other in Hin by assumption. auto.
Qed.

Theorem Inv_step (s : State) (a : action) : Inv s -> Inv (step s a).
Proof.
  intros I. unfold step. destruct (exit_code s) as [c|] eqn:Hal; [exact I|].
  destruct (inv_threads s I) as (main & kids & Hth & Hmain & Hlen & Hkids).
  destruct a as [tid|dt|sg|tid err].
  - destruct (nth_error (threads s) tid) as [p|] eqn:Hp; [|exact I].
    destruct (thread_step s p) as [[[ev p'] s']|] eqn:Hts; [|exact I].
    rewrite Hth in Hp. destruct tid as [|i]; simpl in Hp.
    + injection Hp as <-. now apply (Inv_main_step s s' main p' kids ev).
    + now apply (Inv_kid_step s s' main p p' kids i ev).
  - destruct I. constructor; simpl; auto.
    intros e He. specialize (inv_time0 e He). lia.
  - destruct (in_signals sg (notified s) && (List.length (sigCh s) <? 1)%nat)
      eqn:Hc; [|exact I].
    apply andb_true_iff in Hc. destruct Hc as [Hin _].
    assert (Hsg : sg = SIGINT \/ sg = SIGTERM).
    { unfold in_signals in Hin. apply existsb_exists in Hin.
      destruct Hin as (x & Hx & Heq). apply Z.eqb_eq in Heq. subst x.
      rewrite (inv_notified s I) in Hx.
      apply (notif_of_signals (hist s) (inv_hist s I) sg Hx). }
    destruct I. constructor; simpl; auto.
    intros x Hx. apply in_app_or in Hx. destruct Hx as [Hx|[<-|[]]]; auto.
  - destruct (nth_error (threads s) tid) as [p|] eqn:Hp; [|exact I].
    destruct p; try exact I.
    destruct (srv_may_return s err) eqn:Hmay; [|exact I].
    rewrite Hth in Hp. destruct tid as [|i]; simpl in Hp.
    + injection Hp as ->. inversion Hmain.
    + now apply (Inv_srv_return s main kids i k err).
Qed.

Lemma Inv_init (w : World) (fl : Flags) : Inv (init w fl).
Proof.
  constructor; simpl; try (intros ? []); auto.
  exists (Run w fl), []. split; [reflexivity|]. split; [apply main_ok_Run|].
  split; [reflexivity|]. intros [|i] p H; discriminate.
Qed.

Lemma Inv_run (s : State) (sched : list action) : Inv s -> Inv (run s sched).
Proof.
  revert s. induction sched as [|a sched IH]; intros s I; [exact I|].
  simpl. apply IH. now apply Inv_step.
Qed.

Lemma Inv_reachable (w : World) (fl : Flags) (sched : list action) :
  Inv (run (init w fl) sched).
Proof. apply Inv_run, Inv_init. Qed.

(** ** Reading the history

    A history lists its entries newest first: in [newer ++ e :: older] the
    entries of [older] were made before [e], those of [newer] after it. *)

Lemma hist_ok_split (newer older : list entry) (e : entry) :
  hist_ok (newer ++ e :: older) -> entry_ok older e /\ hist_ok older.
Proof.
  induction newer as [|x newer IH]; simpl; [tauto|]. intros [_ H]. auto.
Qed.

Lemma spawned_older (tid : nat) (e : entry) (older : list entry) :
  e_tid e <> O -> spawned tid (e :: older) -> spawned tid older.
Proof.
  intros Hne (g & [<-|Hg] & H0 & Hev); [congruence|]. now exists g.
Qed.

(** Who may have made an entry, and after which entries of its own. *)
Lemma entry_cases (older : list entry) (e : entry) :
  emit_ok older e ->
  (e_tid e = 0%nat /\ main_emit (proj 0 older) (e_ev e)) \/
  (e_tid e = 1%nat /\ spawned 1 older /\ proj 1 older = [] /\
   e_ev e = EvDo (Factory_Start CoreSharedInformerFactory)) \/
  (e_tid e = 2%nat /\ spawned 2 older /\
   ((e_ev e = EvSleep warmup_delay /\ lhist 2 older = []) \/
    (e_ev e = EvWake /\ exists sl, lhist 2 older = [sl] /\
       e_ev sl = EvSleep warmup_delay /\
       e_time sl + warmup_delay <= e_time e) \/
    (e_ev e = EvDo (Factory_Start SharedInformerFactory) /\
     exists wk sl, lhist 2 older = [wk; sl] /\ e_ev wk = EvWake /\
       e_ev sl = EvSleep warmup_delay /\
       e_time sl + warmup_delay <= e_time wk))) \/
  (e_tid e = 3%nat /\ spawned 3 older /\
   ((exists r, e_ev e = EvSrvReturn r /\ proj 3 older = [] /\
       (r = None -> stop_of (proj 0 older) = Closed)) \/
    (exists err, e_ev e = EvDo (Fprintf_Stderr launch_template [err]) /\
       proj 3 older = [EvSrvReturn (Some err)]) \/
    (exists err, e_ev e = EvDo (Os_Exit 1) /\
       proj 3 older = [EvDo (Fprintf_Stderr launch_template [err]);
                       EvSrvReturn (Some err)]))).
Proof.
  unfold emit_ok. destruct (e_tid e) as [|[|[|[|i]]]] eqn:Htid.
  - intros H. left. auto.
  - intros [(p & Hsp & Hst) _]. right; left.
    apply spawned_older in Hsp; [|congruence].
    unfold kid_st in Hst. rewrite proj_cons_same in Hst by assumption.
    inversion Hst as [|Hl Hq]. repeat split; auto.
  - intros [(p & Hsp & Hst) _]. right; right; left.
    apply spawned_older in Hsp; [|congruence].
    unfold kid_st in Hst. rewrite lhist_cons_same in Hst by assumption.
    split; [reflexivity|]. split; [assumption|].
    inversion Hst as [|sl Hsl Hl Hq|wk sl Hwk Hsl Hle Hl Hq
                      |st wk sl Hs Hwk Hsl Hle Hl Hq]; subst.
    + left. split; auto.
    + right; left. split; [assumption|]. exists sl. auto.
    + right; right. split; [assumption|]. exists wk, sl. auto.
  - intros [(p & Hsp & Hst) Hret]. right; right; right.
    apply spawned_older in Hsp; [|congruence].
    unfold kid_st in Hst. rewrite proj_cons_same in Hst by assumption.
    split; [reflexivity|]. split; [assumption|].
    inversion Hst as [|Hl Hq|err Hl Hq|err Hl Hq|err Hl Hq].
    + left. exists None. repeat split; auto.
    + left. exists (Some err). repeat split; auto. discriminate.
    + right; left. exists err. split; auto.
    + right; right. exists err. split; auto.
  - intros [(p & _ & []) _].
Qed.

(** The entry is not one of the delayed goroutine, or of the server's. *)
Ltac not_delayed Hd Hev :=
  let He := fresh "He" in
  destruct Hd as [[He _]|[[He _]|[He _]]]; rewrite Hev in He; discriminate.

Ltac not_server Hs Hev :=
  let He := fresh "He" in
  destruct Hs as [(? & He & _)|[(? & He & _)|(? & He & _)]];
  rewrite Hev in He; discriminate.

(** A goroutine exists only after the [go] statement of the main flow, and
    the main flow had executed what must come before that statement. *)
Lemma spawned_go (tid : nat) (h : list entry) :
  hist_ok h -> spawned tid h ->
  exists newer g older,
    h = newer ++ g :: older /\ e_tid g = O /\ e_ev g = EvGo tid /\
    tid = S (count_go (proj 0 older)) /\
    exists child, ok_go (proj 0 older) child.
Proof.
  intros Hok (g & Hin & Hg0 & Hev).
  apply in_split in Hin. destruct Hin as (newer & older & ->).
  exists newer, g, older. split; [reflexivity|]. split; [assumption|].
  split; [assumption|].
  apply hist_ok_split in Hok. destruct Hok as [[_ Hem] _].
  unfold emit_ok in Hem. rewrite Hg0, Hev in Hem. exact Hem.
Qed.

Lemma proj_older_In (tid : nat) (ev : event) (newer older : list entry) (g : entry) :
  In ev (proj tid older) ->
  exists r, In r (newer ++ g :: older) /\ In r older /\
            e_tid r = tid /\ e_ev r = ev.
Proof.
  intros H. apply proj_In in H. destruct H as (r & Hr & Ht & He).
  exists r. repeat split; auto. apply in_or_app. right. now right.
Qed.

Lemma factory_of_core (k : ResourceKind) :
  factory_of k = CoreSharedInformerFactory -> k = Endpoints.
Proof. destruct k; simpl; congruence. Qed.

(** The handlers of a factory are registered before the [go] statement that
    creates the goroutine starting it. *)
Lemma registered_before_go (h : list entry) (tid : nat) (k : ResourceKind) :
  hist_ok h -> spawned tid h ->
  (tid = 1%nat /\ factory_of k = CoreSharedInformerFactory) \/
  (tid = 2%nat /\ factory_of k = SharedInformerFactory) ->
  exists newer g older r,
    h = newer ++ g :: older /\ e_tid g = O /\ e_ev g = EvGo tid /\
    In r older /\ e_tid r = O /\ e_ev r = EvDo (RegisterHandler k).
Proof.
  intros Hok Hsp Hk.
  destruct (spawned_go tid h Hok Hsp)
    as (newer & g & older & -> & Hg0 & Hev & Hn & child & Hgo).
  assert (Hreg : registered k (proj 0 older) = true).
  { unfold ok_go in Hgo. destruct Hk as [[-> Hf]|[-> Hf]].
    - injection Hn as Hn. rewrite <- Hn in Hgo.
      apply factory_of_core in Hf. subst k. tauto.
    - injection Hn as Hn. rewrite <- Hn in Hgo.
      destruct k; simpl in Hf; try discriminate; tauto. }
  apply registered_In in Hreg.
  destruct (proj_older_In 0 _ newer older g Hreg) as (r & _ & Hr & Ht & He).
  exists newer, g, older, r. auto 10.
Qed.

Lemma In_older (A : Type) (newer older : list A) (g r : A) :
  In r older -> In r (newer ++ g :: older).
Proof. intros H. apply in_or_app. right. now right. Qed.

Lemma go_numbered (l : list event) (n : nat) :
  mhist_ok l -> (1 <= n <= count_go l)%nat -> In (EvGo n) l.
Proof.
  induction l as [|ev l IH]; simpl; [lia|]. intros [Hem Hok] Hn.
  destruct ev as [a|m| | | | |]; try (right; apply IH; auto; fail).
  simpl in Hem. destruct Hem as [-> _].
  destruct (Nat.eq_dec n (S (count_go l))) as [->|Hne]; [now left|].
  right. apply IH; [assumption | lia].
Qed.

Lemma hist_ok_main (h : list entry) : hist_ok h -> mhist_ok (proj 0 h).
Proof.
  induction h as [|e h IH]; simpl; [trivial|]. intros [[_ Hem] Hok].
  destruct (Nat.eq_dec (e_tid e) 0) as [He|He].
  - rewrite proj_cons_same by assumption. split; [|auto].
    unfold emit_ok in Hem. now rewrite He in Hem.
  - rewrite proj_cons_other by assumption. auto.
Qed.


Lemma hist_step (s : State) (a : action) :
  hist (step s a) = hist s \/
  exists tid ev,
    hist (step s a) = {| e_time := clock s; e_tid := tid; e_ev := ev |} :: hist s.
Proof.
  unfold step. destruct (exit_code s); [now left|].
  destruct a as [tid|dt|sg|tid err].
  - destruct (nth_error (threads s) tid) as [p|]; [|now left].
    destruct (thread_step s p) as [[[ev p'] s']|]; [|now left].
    right. exists tid, ev. reflexivity.
  - now left.
  - destruct (_ && _); now left.
  - destruct (nth_error (threads s) tid) as [[]|]; try now left.
    destruct (srv_may_return s err); [|now left].
    right. exists tid, (EvSrvReturn err). reflexivity.
Qed.

(** The history only grows. *)
Lemma hist_run (s : State) (sched : list action) :
  exists newer, hist (run s sched) = newer ++ hist s.
Proof.
  revert s. induction sched as [|a sched IH]; intros s; simpl.
  - now exists [].
  - destruct (IH (step s a)) as (newer & ->).
    destruct (hist_step s a) as [->|(tid & ev & ->)].
    + now exists newer.
    + exists (newer ++ [{| e_time := clock s; e_tid := tid; e_ev := ev |}]).
      now rewrite <- app_assoc.
Qed.


(** The custom-resource factory is started by goroutine 2, which was
    created by the main flow and has slept for the whole delay since. *)
Lemma crd_start_entry (newer older : list entry) (e : entry) :
  hist_ok (newer ++ e :: older) ->
  e_ev e = EvDo (Factory_Start SharedInformerFactory) ->
  e_tid e = 2%nat /\
  exists g sl,
    In g older /\ e_tid g = O /\ e_ev g = EvGo 2 /\
    In sl older /\ e_tid sl = 2%nat /\ e_ev sl = EvSleep warmup_delay /\
    e_time g <= e_time sl /\ e_time sl + warmup_delay <= e_time e.
Proof.
  intros Hok Hev. apply hist_ok_split in Hok.
  destruct Hok as [[Hbef Hem] Hok].
  destruct (entry_cases older e Hem)
    as [[_ Hm]|[(_ & _ & _ & He)|[(Ht & _ & Hd)|(_ & _ & Hs)]]].
  - rewrite Hev in Hm. simpl in Hm. discriminate.
  - rewrite Hev in He. discriminate.
  - split; [exact Ht|].
    destruct Hd as [[He _]|[[He _]|[_ (wk & sl & Hl & Hwk & Hsl & Hle)]]];
      try (rewrite Hev in He; discriminate).
    assert (Hinwk : In wk older).
    { apply (lhist_In 2). rewrite Hl. now left. }
    assert (Hinsl : In sl older /\ e_tid sl = 2%nat).
    { apply (lhist_In 2). rewrite Hl. right. now left. }
    destruct Hinsl as [Hinsl Htsl].
    destruct (in_split _ _ Hinsl) as (n2 & o2 & Heq).
    rewrite Heq in Hok. apply hist_ok_split in Hok.
    destruct Hok as [[Hbef2 Hem2] _].
    unfold emit_ok in Hem2. rewrite Htsl in Hem2.
    destruct Hem2 as [(p & Hsp & _) _].
    apply spawned_older in Hsp; [|congruence].
    destruct Hsp as (g & Hg & Hg0 & Hgev).
    exists g, sl. repeat split; auto.
    + rewrite Heq. apply in_or_app. right. now right.
    + apply (Hbef2 g Hg).
    + destruct (Hbef wk Hinwk) as [Hwt _]. lia.
  - not_server Hs Hev.
Qed.


(** Only the delayed goroutine sleeps, and for the fixed delay. *)
Lemma sleep_entry (newer older : list entry) (e : entry) (d : Duration) :
  hist_ok (newer ++ e :: older) -> e_ev e = EvSleep d ->
  e_tid e = 2%nat /\ d = warmup_delay.
Proof.
  intros Hok Hev. apply hist_ok_split in Hok.
  destruct Hok as [[_ Hem] _].
  destruct (entry_cases older e Hem)
    as [[_ Hm]|[(_ & _ & _ & He)|[(Ht & _ & Hd)|(_ & _ & Hs)]]].
  - rewrite Hev in Hm. contradiction.
  - rewrite Hev in He. discriminate.
  - split; [exact Ht|].
    destruct Hd as [[He _]|[[He _]|[He _]]]; rewrite Hev in He;
      try discriminate.
    now injection He.
  - not_server Hs Hev.
Qed.

(** The main flow is blocked only on the receive from the signal channel. *)
Lemma main_progress (s : State) (main : proc) (kids : list proc) :
  Inv s -> exit_code s = None -> threads s = main :: kids ->
  main <> await_signal shutdown_tail ->
  exists ev p' s', thread_step s main = Some (ev, p', s').
Proof.
  intros I Hal Hth Hne.
  destruct (inv_threads s I) as (main0 & kids0 & Hth0 & Hmain & _).
  rewrite Hth in Hth0. injection Hth0 as <- <-.
  inversion Hmain as [h0 Hend|h0 a k Hok Hk|h0 child k Hgo Hk|h0 Hsub Htail Hopen];
    subst.
  - exfalso. unfold ended in Hend.
    destruct (proj 0 (hist s)) as [|ev l] eqn:Hp; [discriminate|].
    assert (Hin : In ev (proj 0 (hist s))) by (rewrite Hp; now left).
    apply proj_In in Hin. destruct Hin as (e & He & _ & Hev).
    pose proof (inv_exit s I) as X. rewrite Hal in X.
    specialize (X e He). rewrite Hev in X. rewrite X in Hend. discriminate.
  - simpl. destruct (exec_prim a s) as [ev s']. eauto.
  - simpl. eauto.
  - congruence.
Qed.

Lemma In_proj (tid : nat) (e : entry) (h : list entry) :
  In e h -> e_tid e = tid -> In (e_ev e) (proj tid h).
Proof.
  intros Hin Ht. unfold proj. apply in_map. apply lhist_In. auto.
Qed.

Lemma stop_of_closed_In (l : list event) :
  stop_of l = Closed -> In (EvDo Close_Stop) l.
Proof.
  induction l as [|ev l IH]; simpl; [discriminate|].
  destruct ev as [a| | | | | |]; try (intros H; right; auto; fail).
  destruct a; try (intros H; right; auto; fail); try discriminate.
  intros _. now left.
Qed.

Lemma stop_of_nochan (l : list event) :
  stop_of l = NoChan -> ~ In (EvDo Close_Stop) l.
Proof.
  induction l as [|ev l IH]; simpl; [tauto|].
  destruct ev as [a| | | | | |];
    try (intros H [X|X]; [discriminate | now apply IH]).
  destruct a; try discriminate;
    intros H [X|X]; try discriminate; now apply IH.
Qed.

(** The stop channel is closed exactly when the main flow has executed
    [close(stopCh)]. *)
Lemma stop_closed_iff (l : list event) :
  mhist_ok l -> (stop_of l = Closed <-> In (EvDo Close_Stop) l).
Proof.
  intros Hok. split; [apply stop_of_closed_In|].
  induction l as [|ev l IH]; simpl; [tauto|].
  destruct Hok as [Hem Hok]. specialize (IH Hok).
  intros [Heq|Hin].
  - subst ev. reflexivity.
  - destruct ev as [a| | | | | |]; auto.
    destruct a; auto. simpl in Hem.
    destruct (stop_of l) eqn:Hs; try discriminate.
    exfalso. now apply (stop_of_nochan l Hs).
Qed.

(** Only the main flow closes the stop channel, and only when it is open. *)
Lemma close_entry (newer older : list entry) (e : entry) :
  hist_ok (newer ++ e :: older) -> e_ev e = EvDo Close_Stop ->
  e_tid e = O /\ stop_of (proj 0 older) = Open /\
  exists t a sg rest,
    proj 0 older = EvDo (Log_Infof t a) :: EvRecv sg :: rest.
Proof.
  intros Hok Hev. apply hist_ok_split in Hok. destruct Hok as [[_ Hem] _].
  destruct (entry_cases older e Hem)
    as [[Ht Hm]|[(_ & _ & _ & He)|[(_ & _ & Hd)|(_ & _ & Hs)]]].
  - split; [exact Ht|]. rewrite Hev in Hm. simpl in Hm.
    apply andb_true_iff in Hm. destruct Hm as [Ho Hp].
    split; [destruct (stop_of (proj 0 older)); try discriminate; reflexivity|].
    destruct (proj 0 older) as [|e1 h]; [discriminate|].
    destruct e1 as [a1| | | | | |]; try discriminate.
    destruct a1; try discriminate.
    destruct h as [|e2 h]; [discriminate|].
    destruct e2; try discriminate.
    eauto.
  - rewrite Hev in He. discriminate.
  - not_delayed Hd Hev.
  - not_server Hs Hev.
Qed.

Lemma close_once (newer older : list entry) (e : entry) :
  hist_ok (newer ++ e :: older) -> e_ev e = EvDo Close_Stop ->
  forall o, In o older -> e_ev o <> EvDo Close_Stop.
Proof.
  intros Hok Hev o Ho Hoev.
  destruct (close_entry newer older e Hok Hev) as (_ & Hopen & _).
  apply hist_ok_split in Hok. destruct Hok as [_ Hok].
  destruct (in_split _ _ Ho) as (n2 & o2 & Heq).
  assert (Ht : e_tid o = O).
  { rewrite Heq in Hok. apply (close_entry n2 o2 o Hok Hoev). }
  assert (Hin : In (EvDo Close_Stop) (proj 0 older)).
  { rewrite <- Hoev. now apply In_proj. }
  apply (stop_closed_iff _ (hist_ok_main older Hok)) in Hin. congruence.
Qed.

(** No statement of the program panics. *)
Lemma no_panic (h : list entry) (e : entry) (msg : string) :
  hist_ok h -> In e h -> e_ev e <> EvPanic msg.
Proof.
  intros Hok Hin Hev. destruct (in_split _ _ Hin) as (newer & older & ->).
  apply hist_ok_split in Hok. destruct Hok as [[_ Hem] _].
  destruct (entry_cases older e Hem)
    as [[_ Hm]|[(_ & _ & _ & He)|[(_ & _ & Hd)|(_ & _ & Hs)]]].
  - rewrite Hev in Hm. contradiction.
  - rewrite Hev in He. discriminate.
  - not_delayed Hd Hev.
  - not_server Hs Hev.
Qed.

Lemma stop_closed_hist (s : State) :
  Inv s ->
  (stop s = Closed <-> exists e, In e (hist s) /\ e_ev e = EvDo Close_Stop).
Proof.
  intros I. rewrite (inv_stop s I).
  rewrite (stop_closed_iff _ (hist_ok_main _ (inv_hist s I))).
  split.
  - intros H. apply proj_In in H. destruct H as (e & He & _ & Hev). eauto.
  - intros (e & He & Hev).
    destruct (in_split _ _ He) as (newer & older & Heq).
    pose proof (inv_hist s I) as Hok. rewrite Heq in Hok.
    destruct (close_entry newer older e Hok Hev) as (Ht & _).
    rewrite <- Hev. now apply In_proj.
Qed.

(** What the delayed goroutine is left with, by the entries it has made. *)
Lemma delayed_code (s : State) (p : proc) :
  Inv s -> nth_error (threads s) 2 = Some p -> delayed_st (lhist 2 (hist s)) p.
Proof.
  intros I Hp.
  destruct (inv_threads s I) as (main & kids & Hth & _ & _ & Hkids).
  rewrite Hth in Hp. simpl in Hp. apply (Hkids 1%nat p Hp).
Qed.

Lemma thread_exists (s : State) (e : entry) :
  Inv s -> In e (hist s) -> exists p, nth_error (threads s) (e_tid e) = Some p.
Proof.
  intros I He. pose proof (inv_tids s I e He) as Hlt.
  destruct (nth_error (threads s) (e_tid e)) as [p|] eqn:Hn; [eauto|].
  apply nth_error_None in Hn. lia.
Qed.

(** The goroutine of the server, by the entries it has made. *)
Lemma server_code (s : State) (p : proc) :
  Inv s -> nth_error (threads s) 3 = Some p -> server_st (proj 3 (hist s)) p.
Proof.
  intros I Hp.
  destruct (inv_threads s I) as (main & kids & Hth & _ & _ & Hkids).
  rewrite Hth in Hp. simpl in Hp. apply (Hkids 2%nat p Hp).
Qed.

Lemma server_running (s : State) (k : option string -> proc) :
  Inv s -> nth_error (threads s) 3 = Some (SrvRun k) ->
  exists main k1 k2 rest, threads s = main :: k1 :: k2 :: server_task :: rest.
Proof.
  intros I Hp. pose proof (server_code s _ I Hp) as Hst.
  inversion Hst as [Hl Hq| | | |].
  destruct (threads s) as [|main [|k1 [|k2 [|k3 rest]]]]; try discriminate.
  simpl in Hp. injection Hp as ->. exists main, k1, k2, rest.
  unfold server_task. now rewrite Hq.
Qed.



(** How the process can have ended. *)
Lemma exit_cases (s : State) (c : Z) :
  Inv s -> exit_code s = Some c ->
  exists e rest,
    hist s = e :: rest /\
    ((c = 0 /\ e_tid e = O /\ e_ev e = EvDo Return) \/
     (c = 1 /\ e_ev e = EvDo (Os_Exit 1) /\
      exists t a more,
        proj (e_tid e) rest = EvDo (Fprintf_Stderr t a) :: more /\
        HasSuffix t nl = true)).
Proof.
  intros I Hc. pose proof (inv_exit s I) as X. rewrite Hc in X.
  destruct X as (e & rest & Hh & Hterm). exists e, rest.
  split; [exact Hh|].
  pose proof (inv_hist s I) as Hok. rewrite Hh in Hok.
  destruct Hok as [[_ Hem] _].
  destruct (entry_cases rest e Hem)
    as [[Ht Hm]|[(_ & _ & _ & He)|[(_ & _ & Hd)|(Ht & _ & Hs)]]].
  - destruct (e_ev e) as [a| | | | | |] eqn:Hev; simpl in Hterm;
      try discriminate; try contradiction.
    destruct a; simpl in Hterm; try discriminate; injection Hterm as <-.
    + right. simpl in Hm. apply andb_true_iff in Hm. destruct Hm as [H1 H2].
      apply Z.eqb_eq in H1. subst code. split; [reflexivity|].
      split; [reflexivity|]. rewrite Ht.
      destruct (proj 0 rest) as [|e1 more]; [discriminate|].
      destruct e1 as [a1| | | | | |]; try discriminate.
      destruct a1; try discriminate.
      eauto.
    + left. auto.
  - rewrite He in Hterm. discriminate.
  - destruct Hd as [[He _]|[[He _]|[He _]]]; rewrite He in Hterm;
      discriminate.
  - destruct Hs as [(r & He & _)|[(err & He & _)|(err & He & Hp)]];
      rewrite He in Hterm; try discriminate.
    injection Hterm as <-. right. split; [reflexivity|].
    split; [exact He|]. rewrite Ht, Hp.
    exists launch_template, [err], [EvSrvReturn (Some err)].
    split; reflexivity.
Qed.

(** ** Straight-line runs *)

Lemma exec_prim_plain (a : prim) (s : State) :
  plain a = true -> exec_prim a s = (EvDo a, s).
Proof. destruct a; simpl; try discriminate; reflexivity. Qed.

Lemma seq_prims_step (s : State) (a : prim) (l : list prim) :
  exit_code s = None -> threads s = [seq_prims (a :: l)] -> plain a = true ->
  step s (ActRun 0) = commit s 0 (EvDo a) (seq_prims l) s.
Proof.
  intros Hal Hth Hpl. unfold step. rewrite Hal, Hth. simpl.
  rewrite (exec_prim_plain a s Hpl). reflexivity.
Qed.

(** A main flow that runs alone through plain statements up to
    [os.Exit(1)]: after [n] of its steps the history has grown by the first
    [n] statements, and the process has exited once all are executed. *)
Lemma seq_run (sched : list action) :
  forall (l : list prim) (s : State),
    Forall (fun a => plain a = true) l ->
    exit_code s = None -> threads s = [seq_prims (l ++ [Os_Exit 1])] ->
    notified s = [] ->
    let s' := run s sched in
    let n := count_main sched in
    List.length (threads s') = 1%nat /\
    tagged (hist s') =
      rev (map (fun a => (O, EvDo a)) (firstn n (l ++ [Os_Exit 1])))
      ++ tagged (hist s) /\
    exit_code s' = if (List.length l <? n)%nat then Some 1 else None.
Proof.
  induction sched as [|a sched IH]; intros l s Hpl Hal Hth Hn.
  - simpl. rewrite Hth, Hal. repeat split.
  - simpl run.
    assert (Hsame : step s a = s \/ (exists dt, step s a = with_clock dt s) ->
                    count_main (a :: sched) = count_main sched ->
                    let s' := run (step s a) sched in
                    let n := count_main (a :: sched) in
                    List.length (threads s') = 1%nat /\
                    tagged (hist s') =
                      rev (map (fun a => (O, EvDo a)) (firstn n (l ++ [Os_Exit 1])))
                      ++ tagged (hist s) /\
                    exit_code s' = if (List.length l <? n)%nat then Some 1 else None).
    { intros [->|(dt & ->)] ->.
      - now apply IH.
      - now apply (IH l (with_clock dt s)). }
    destruct a as [[|i]|dt|sg|tid err].
    + (* the main flow *)
      destruct l as [|a0 l].
      * (* os.Exit(1) *)
        assert (E : step s (ActRun 0) = commit s 0 (EvDo (Os_Exit 1)) Done (with_exit 1 s)).
        { unfold step. rewrite Hal, Hth. reflexivity. }
        rewrite E. rewrite (run_exited _ sched 1) by reflexivity.
        unfold commit. simpl. rewrite Hth. repeat split.
        rewrite firstn_nil. reflexivity.
      * inversion Hpl as [|x y Hx Hy]; subst.
        rewrite (seq_prims_step s a0 (l ++ [Os_Exit 1]) Hal Hth Hx).
        destruct (IH l (commit s 0 (EvDo a0) (seq_prims (l ++ [Os_Exit 1])) s))
          as (H1 & H2 & H3); auto.
        { unfold commit. simpl. now rewrite Hth. }
        split; [exact H1|]. split.
        -- rewrite H2. unfold commit, count_main. simpl.
           rewrite <- app_assoc. reflexivity.
        -- rewrite H3. reflexivity.
    + apply Hsame; [|reflexivity]. left.
      unfold step. rewrite Hal, Hth. simpl. now destruct i.
    + apply Hsame; [|reflexivity]. right. exists (clock s + Z.max 0 dt).
      unfold step. now rewrite Hal.
    + apply Hsame; [|reflexivity]. left.
      unfold step. rewrite Hal, Hn. reflexivity.
    + apply Hsame; [|reflexivity]. left.
      unfold step. rewrite Hal, Hth.
      destruct tid as [|[|tid]]; simpl; try reflexivity.
      destruct l; reflexivity.
Qed.

(** ** Failures of the initialisation end the process *)

Lemma exec_prim_alive (a : prim) (s : State) (k : proc) (n g : nat) :
  dies_in (Do a k) = Some (n, g) ->
  (exists c, a = Os_Exit c /\ c = 1 /\ n = 1%nat) \/
  (exists s0 n',
      exec_prim a s = (EvDo a, s0) /\ exit_code s0 = exit_code s /\
      threads s0 = threads s /\ dies_in k = Some (n', g) /\ n = S n').
Proof.
  intros H.
  destruct a; simpl in H;
    try (destruct (dies_in k) as [[n' g']|]; [|discriminate];
         injection H as <- <-; right; eexists; exists n';
         repeat split; reflexivity);
    try discriminate.
  left. destruct (code =? 1) eqn:E; [|discriminate].
  apply Z.eqb_eq in E. injection H as <- <-. eauto.
Qed.

Lemma action_eq_main (a : action) : a = ActRun 0 \/ a <> ActRun 0.
Proof. destruct a as [[|i]| | |]; auto; right; discriminate. Qed.

Lemma action_eq_dec3 (a : action) : a = ActRun 3 \/ a <> ActRun 3.
Proof.
  destruct a as [[|[|[|[|t]]]]| | |]; auto; right; discriminate.
Qed.

Lemma nth_error_Some_lt (A : Type) (l : list A) (i : nat) (x : A) :
  nth_error l i = Some x -> (i < List.length l)%nat.
Proof. intros H. apply nth_error_Some. congruence. Qed.

(** While at most the two factory goroutines exist, only the main flow can
    end the process. *)
Lemma other_step_quiet (s : State) (main : proc) (kids : list proc) (a : action) :
  Inv s -> exit_code s = None -> threads s = main :: kids ->
  (List.length kids <= 2)%nat -> a <> ActRun 0 ->
  (forall k, main <> SrvRun k) ->
  exit_code (step s a) = None /\
  exists kids', threads (step s a) = main :: kids' /\
                List.length kids' = List.length kids.
Proof.
  intros I Hal Hth Hlen Hne Hmain.
  destruct (inv_threads s I) as (main0 & kids0 & Hth0 & _ & _ & Hkids).
  rewrite Hth in Hth0. injection Hth0 as <- <-.
  assert (Hstay : exit_code s = None /\
                  exists kids', threads s = main :: kids' /\
                                List.length kids' = List.length kids).
  { split; [exact Hal|]. now exists kids. }
  unfold step. rewrite Hal.
  destruct a as [[|i]|dt|sg|[|i] err]; try congruence.
  - rewrite Hth. simpl.
    destruct (nth_error kids i) as [p|] eqn:Hp; [|exact Hstay].
    assert (Hi : (i < 2)%nat).
    { apply nth_error_Some_lt in Hp. lia. }
    destruct (Hkids i p Hp) as [_ Hst].
    assert (Hres : forall ev p' s',
               thread_step s p = Some (ev, p', s') -> s' = s).
    { destruct i as [|[|i]]; [| |lia]; simpl in Hst; inversion Hst; subst;
        simpl; intros ev p' s' Hstep; try discriminate.
      - now injection Hstep as <- <- <-.
      - now injection Hstep as <- <- <-.
      - destruct (_ <=? _); [|discriminate]. now injection Hstep as <- <- <-.
      - now injection Hstep as <- <- <-. }
    destruct (thread_step s p) as [[[ev p'] s']|] eqn:Hts; [|exact Hstay].
    rewrite (Hres ev p' s' eq_refl). unfold commit. simpl.
    split; [exact Hal|]. rewrite Hth. simpl.
    exists (set_nth i p' kids). split; [reflexivity | apply length_set_nth].
  - simpl. split; [exact Hal|]. now exists kids.
  - destruct (_ && _); [|exact Hstay].
    simpl. split; [exact Hal|]. now exists kids.
  - rewrite Hth. simpl. destruct main; try exact Hstay.
    exfalso. now apply (Hmain k).
  - rewrite Hth. simpl.
    destruct (nth_error kids i) as [p|] eqn:Hp; [|exact Hstay].
    assert (Hi : (i < 2)%nat).
    { apply nth_error_Some_lt in Hp. lia. }
    destruct (Hkids i p Hp) as [_ Hst].
    destruct i as [|[|i]]; [| |lia]; simpl in Hst; inversion Hst; subst;
      exact Hstay.
Qed.

Lemma count_main_other (a : action) (sched : list action) :
  a <> ActRun 0 -> count_main (a :: sched) = count_main sched.
Proof.
  intros H. unfold count_main. simpl.
  destruct a as [[|i]| | |]; try reflexivity. congruence.
Qed.

(** A main flow on its way to [os.Exit(1)] gets there: the process never
    ends otherwise, and it has ended once the main flow has run the
    statements that are left. *)
Lemma fatal_run (sched : list action) :
  forall (s : State) (main : proc) (kids : list proc) (n g : nat),
    Inv s -> exit_code s = None -> threads s = main :: kids ->
    dies_in main = Some (n, g) -> (List.length kids + g <= 2)%nat ->
    (forall c, exit_code (run s sched) = Some c -> c = 1) /\
    ((n <= count_main sched)%nat -> exit_code (run s sched) = Some 1).
Proof.
  induction sched as [|a sched IH]; intros s main kids n g I Hal Hth Hd Hlen.
  - simpl. rewrite Hal. split; [discriminate|].
    unfold count_main. simpl. intros Hn.
    destruct main; simpl in Hd; try discriminate.
    + destruct (exec_prim_alive a s main n g Hd)
        as [(c & _ & _ & ->)|(s0 & n' & _ & _ & _ & _ & ->)]; lia.
    + destruct (dies_in main2) as [[n' g']|]; [|discriminate].
      injection Hd as <- <-. lia.
  - simpl run. pose proof (Inv_step s a I) as I1.
    destruct (action_eq_main a) as [->|Hne].
    + (* the main flow runs *)
      destruct main; simpl in Hd; try discriminate.
      * destruct (exec_prim_alive a s main n g Hd)
          as [(c & -> & -> & ->)|(s0 & n' & Hex & Hx & Ht & Hk & ->)].
        -- assert (E : exit_code (step s (ActRun 0)) = Some 1).
           { unfold step. rewrite Hal, Hth. reflexivity. }
           rewrite (run_exited _ sched 1 E). rewrite E.
           split; [intros c H; now injection H|reflexivity].
        -- assert (E : step s (ActRun 0) = commit s 0 (EvDo a) main s0).
           { unfold step. rewrite Hal, Hth. simpl. now rewrite Hex. }
           rewrite E in *.
           destruct (IH (commit s 0 (EvDo a) main s0) main kids n' g I1)
             as [H1 H2]; auto.
           { unfold commit. simpl. congruence. }
           { unfold commit. simpl. rewrite Ht, Hth. reflexivity. }
           split; [exact H1|]. intros Hn. apply H2.
           unfold count_main in *. simpl in Hn. lia.
      * destruct (dies_in main2) as [[n' g']|] eqn:Hk; [|discriminate].
        injection Hd as <- <-.
        assert (E : step s (ActRun 0) =
                    commit s 0 (EvGo (List.length (threads s))) main2
                      (with_threads (threads s ++ [main1]) s)).
        { unfold step, thread_step. rewrite Hal, Hth. reflexivity. }
        rewrite E in *.
        destruct (IH _ main2 (kids ++ [main1]) n' g' I1) as [H1 H2]; auto.
        { unfold commit. simpl. rewrite Hth. reflexivity. }
        { rewrite length_app. simpl. lia. }
        split; [exact H1|]. intros Hn. apply H2.
        unfold count_main in *. simpl in Hn. lia.
    + assert (Hm : forall k, main <> SrvRun k).
      { intros k ->. discriminate. }
      destruct (other_step_quiet s main kids a I Hal Hth ltac:(lia) Hne Hm)
        as (Hal1 & kids' & Hth1 & Hl1).
      rewrite (count_main_other a sched Hne).
      apply (IH (step s a) main kids' n g I1 Hal1 Hth1 Hd). lia.
Qed.


(** ** A failing server under any schedule *)

Lemma thread_step_threads (s s' : State) (p p' : proc) (ev : event) :
  thread_step s p = Some (ev, p', s') ->
  threads s' = threads s \/ exists c, threads s' = threads s ++ [c].
Proof.
  destruct p; simpl; try discriminate.
  - destruct (exec_prim a s) as [ev0 s0] eqn:Hx. intros H.
    injection H as <- <- <-. left.
    destruct a; simpl in Hx; try (now injection Hx as <- <-).
    destruct (stop s); now injection Hx as <- <-.
  - intros H. injection H as <- <- <-. right. now exists p1.
  - intros H. injection H as <- <- <-. now left.
  - destruct (t <=? clock s); [|discriminate].
    intros H. injection H as <- <- <-. now left.
  - destruct (sigCh s); [discriminate|].
    intros H. injection H as <- <- <-. now left.
Qed.

Lemma nth_error_grown (s s' : State) (tid : nat) (p : proc) :
  threads s' = threads s \/ (exists c, threads s' = threads s ++ [c]) ->
  nth_error (threads s) tid = Some p -> nth_error (threads s') tid = Some p.
Proof.
  intros [->|(c & ->)] H; [exact H|].
  rewrite nth_error_app1; [exact H|]. now apply nth_error_Some_lt in H.
Qed.

(** A step of another thread, or of the environment, leaves the code of a
    thread that is not inside [srv.Run] as it is. *)
Lemma step_other_thread (s : State) (a : action) (tid : nat) (p : proc) :
  a <> ActRun tid -> (forall k, p <> SrvRun k) ->
  nth_error (threads s) tid = Some p ->
  nth_error (threads (step s a)) tid = Some p.
Proof.
  intros Hne Hp Hn. unfold step. destruct (exit_code s); [exact Hn|].
  destruct a as [t|dt|sg|t err].
  - destruct (nth_error (threads s) t) as [q|] eqn:Hq; [|exact Hn].
    destruct (thread_step s q) as [[[ev q'] s']|] eqn:Hts; [|exact Hn].
    unfold commit. simpl.
    rewrite nth_error_set_nth_other by congruence.
    apply (nth_error_grown s s'); [|exact Hn].
    now apply (thread_step_threads s s' q q' ev).
  - exact Hn.
  - destruct (_ && _); exact Hn.
  - destruct (nth_error (threads s) t) as [q|] eqn:Hq; [|exact Hn].
    destruct q; try exact Hn.
    destruct (srv_may_return s err); [|exact Hn].
    unfold commit. simpl.
    destruct (Nat.eq_dec t tid) as [->|Ht].
    + rewrite Hn in Hq. injection Hq as ->. exfalso. now apply (Hp k).
    + now rewrite nth_error_set_nth_other.
Qed.

Lemma dies_in_not_SrvRun (p : proc) (n g : nat) :
  dies_in p = Some (n, g) -> forall k, p <> SrvRun k.
Proof. intros H k ->. discriminate. Qed.

(** A thread on its way to [os.Exit(1)]: once it has run the statements
    that are left, the process has ended (through it or otherwise). *)
Lemma dying_thread_run (more : list action) :
  forall (s : State) (p : proc) (n g : nat),
    nth_error (threads s) 3 = Some p -> dies_in p = Some (n, g) ->
    (n <= count_server more)%nat ->
    exit_code (run s more) <> None.
Proof.
  induction more as [|a more IH]; intros s p n g Hp Hd Hn.
  - unfold count_server in Hn. simpl in Hn.
    destruct p; simpl in Hd; try discriminate.
    + destruct (exec_prim_alive a s p n g Hd)
        as [(c & _ & _ & ->)|(s0 & n' & _ & _ & _ & _ & ->)]; lia.
    + destruct (dies_in p2) as [[n' g']|]; [|discriminate].
      injection Hd as <- <-. lia.
  - simpl run. destruct (exit_code s) as [c|] eqn:Hal.
    { rewrite (step_exited s a c Hal), (run_exited s more c Hal), Hal.
      discriminate. }
    destruct (action_eq_dec3 a) as [->|Hne].
    + destruct p; simpl in Hd; try discriminate.
      * destruct (exec_prim_alive a s p n g Hd)
          as [(c & -> & -> & ->)|(s0 & n' & Hex & Hx & Ht & Hk & ->)].
        -- assert (E : exit_code (step s (ActRun 3)) = Some 1).
           { unfold step. rewrite Hal, Hp. reflexivity. }
           rewrite (run_exited _ more 1 E), E. discriminate.
        -- assert (E : step s (ActRun 3) = commit s 3 (EvDo a) p s0).
           { unfold step. rewrite Hal, Hp. simpl. now rewrite Hex. }
           rewrite E. apply (IH _ p n' g).
           ++ change (nth_error (set_nth 3 p (threads s0)) 3 = Some p).
              rewrite Ht.
              now apply nth_error_set_nth_same with (y := Do a p).
           ++ exact Hk.
           ++ unfold count_server in *. simpl in Hn. lia.
      * destruct (dies_in p2) as [[n' g']|] eqn:Hk; [|discriminate].
        injection Hd as <- <-.
        assert (E : step s (ActRun 3) =
                    commit s 3 (EvGo (List.length (threads s))) p2
                      (with_threads (threads s ++ [p1]) s)).
        { unfold step, thread_step. rewrite Hal, Hp. reflexivity. }
        rewrite E. apply (IH _ p2 n' g').
        -- change (nth_error (set_nth 3 p2 (threads s ++ [p1])) 3 = Some p2).
           apply nth_error_set_nth_same with (y := Go p1 p2).
           rewrite nth_error_app1; [exact Hp|].
           now apply nth_error_Some_lt in Hp.
        -- exact Hk.
        -- unfold count_server in *. simpl in Hn. lia.
    + apply (IH _ p n g).
      * apply step_other_thread; auto. now apply (dies_in_not_SrvRun p n g).
      * exact Hd.
      * unfold count_server in *. simpl in Hn.
        destruct a as [[|[|[|[|t]]]]| | |]; simpl in Hn; try lia. congruence.
Qed.

(** After [srv.Run] has returned an error, under every schedule that lets
    its goroutine run twice the process has ended: with status 1, or with
    status 0 when the main flow, having received a signal, returned
    first. *)
Lemma server_failure_any_schedule
    (w : World) (fl : Flags) (sched more : list action)
    (k : option string -> proc) (err : string) :
  let s := run (init w fl) sched in
  exit_code s = None -> nth_error (threads s) 3 = Some (SrvRun k) ->
  (2 <= count_server more)%nat ->
  let s' := run s (ActSrvReturn 3 (Some err) :: more) in
  exit_code s' = Some 1 \/
  (exit_code s' = Some 0 /\
   exists e rest, hist s' = e :: rest /\ e_tid e = O /\ e_ev e = EvDo Return).
Proof.
  intros s Hal Hp Hn s'.
  pose proof (Inv_reachable w fl sched) as I. fold s in I.
  assert (I' : Inv s') by (apply Inv_run; exact I).
  destruct (server_running s k I Hp) as (main & k1 & k2 & rest & Hth).
  assert (Hlive : exit_code s' <> None).
  { unfold s'. simpl run.
    apply (dying_thread_run more _
             (Fprintf_Stderr launch_template [err] ;; Os_Exit 1 ;; Done)%proc
             2 0); [|reflexivity|exact Hn].
    unfold step, commit. rewrite Hal, Hth. reflexivity. }
  destruct (exit_code s') as [c|] eqn:Hc; [|congruence].
  destruct (exit_cases s' c I' Hc)
    as (e & rest' & Hh & [(-> & Ht & Hev)|(-> & _)]).
  - right. split; [reflexivity|]. eauto.
  - now left.
Qed.

(** ** More on histories, signals and failures *)

Lemma early_failure_code (w : World) (fl : Flags) (t err : string) :
  early_failure w fl = Some (t, err) ->
  Run w fl =
    seq_prims ((early_prefix w fl ++ [Fprintf_Stderr (t ++ nl) [err]])
               ++ [Os_Exit 1]) /\
  Forall (fun a => plain a = true)
    (early_prefix w fl ++ [Fprintf_Stderr (t ++ nl) [err]]) /\
  (List.length (early_prefix w fl) <= 2)%nat /\
  (forall a, In a (early_prefix w fl) ->
             starts_something (EvDo a) = false).
Proof.
  unfold early_failure, early_prefix, Run, logger_failure, startup.
  destruct (String.eqb (configPath fl) ""); simpl.
  - destruct (NewLogger w _ _) as [e|]; [|discriminate].
    intros H. injection H as <- <-.
    split; [reflexivity|]. split; [repeat constructor|].
    split; [simpl; lia|].
    intros a [<-|[]]; reflexivity.
  - destruct (NewConfigFromFile w (configPath fl)) as [c|e].
    + destruct (NewLogger w _ _) as [e|]; [|discriminate].
      intros H. injection H as <- <-.
      split; [reflexivity|]. split; [repeat constructor|].
      split; [simpl; lia|].
      intros a [<-|[<-|[]]]; reflexivity.
    + intros H. injection H as <- <-.
      split; [reflexivity|]. split; [repeat constructor|].
      split; [simpl; lia|].
      intros a [<-|[]]; reflexivity.
Qed.

Lemma In_firstn_In (A : Type) (n : nat) (l : list A) (x : A) :
  In x (firstn n l) -> In x l.
Proof.
  intros H. rewrite <- (firstn_skipn n l). apply in_or_app. now left.
Qed.






Lemma configPath_empty (fl : Flags) :
  String.eqb (configPath fl) "" = true <-> configPath fl = EmptyString.
Proof. apply String.eqb_eq. Qed.

(** * The claims

    In this section [s] is the state an execution has reached: the program
    of the command run on the collaborators [w] and the command line [fl]
    under the schedule [sched]. *)

Section Executions.

Variables (w : World) (fl : Flags) (sched : list action).

Let s : State := run (init w fl) sched.

Let reachable : Inv s := Inv_reachable w fl sched.

(** ** Cancellation and the delayed start *)

(** C1, as stated, fails: SIGTERM arrives a microsecond before the delay is
    over, the main flow closes the stop channel, and at ten seconds, before
    the main flow has returned, the delayed goroutine wakes and starts the
    custom-resource factory all the same. *)
Lemma delayed_start_not_skipped :
  ~ delayed_start_skipped w_good no_flags sched_cancel_then_wake.
Proof.
  intros H.
  set (h := hist (run (init w_good no_flags) sched_cancel_then_wake)).
  apply (H (firstn 2 h) (nth 2 h no_entry) [nth 3 h no_entry]
           (nth 4 h no_entry) (skipn 5 h));
    vm_compute; reflexivity.
Qed.

(** The end of that execution, in the order of time. *)
Example cancel_then_wake_events :
  skipn 25 (events (run (init w_good no_flags) sched_cancel_then_wake)) =
  [ (1%nat, EvDo (Factory_Start CoreSharedInformerFactory));
    (2%nat, EvSleep (10 * Second));
    (O, EvRecv SIGTERM);
    (O, EvDo (Log_Infof "signal %d (%s) received"
                [VSignal SIGTERM; VSignalString SIGTERM]));
    (O, EvDo Close_Stop);
    (2%nat, EvWake);
    (2%nat, EvDo (Factory_Start SharedInformerFactory));
    (O, EvDo (Log_Info ["apisix ingress controller exited"%string]));
    (O, EvDo Return) ].
Proof. vm_compute. reflexivity. Qed.

(** C1, amended: the delayed goroutine does not look at the stop channel.
    Whatever the state of the channel, once its sleep is over it wakes when
    it is scheduled, and having woken it starts the custom-resource
    factory; nothing but the exit of the process, after which no statement
    runs, keeps it from doing so. *)
Theorem delayed_start_unconditional :
  (forall sl,
      exit_code s = None -> lhist 2 (hist s) = [sl] ->
      e_time sl + 10 * Second <= clock s ->
      hist (step s (ActRun 2)) =
        {| e_time := clock s; e_tid := 2; e_ev := EvWake |} :: hist s) /\
  (forall wk sl,
      exit_code s = None -> lhist 2 (hist s) = [wk; sl] ->
      hist (step s (ActRun 2)) =
        {| e_time := clock s; e_tid := 2;
           e_ev := EvDo (Factory_Start SharedInformerFactory) |} :: hist s) /\
  (forall c more, exit_code s = Some c -> run s more = s).
Proof.
  pose proof reachable as I.
  assert (Hex : forall e, In e (lhist 2 (hist s)) ->
                  exists p, nth_error (threads s) 2 = Some p /\
                            delayed_st (lhist 2 (hist s)) p).
  { intros e He. apply lhist_In in He. destruct He as [He Ht].
    destruct (thread_exists s e I He) as (p & Hp). rewrite Ht in Hp.
    exists p. split; [exact Hp | now apply delayed_code]. }
  split; [|split].
  - intros sl Hal Hl Hle.
    destruct (Hex sl) as (p & Hp & Hst); [rewrite Hl; now left|].
    rewrite Hl in Hst. inversion Hst; subst.
    unfold step. rewrite Hal, Hp. simpl.
    change (10 * Second) with warmup_delay in Hle.
    destruct (Z.leb_spec (e_time sl + warmup_delay) (clock s)); [|lia].
    reflexivity.
  - intros wk sl Hal Hl.
    destruct (Hex wk) as (p & Hp & Hst); [rewrite Hl; now left|].
    rewrite Hl in Hst. inversion Hst; subst.
    unfold step. rewrite Hal, Hp. reflexivity.
  - intros c more Hc. now apply (run_exited s more c).
Qed.

(** ** Closing the stop channel *)

(** C2, as stated, fails: [close(stopCh)] is what fires the signal, and on
    a channel that is already closed it is not a no-op but a run-time
    panic, which ends the process with status 2. *)
Lemma second_close_panics :
  let fired := run (init w_good no_flags) sched_closed in
  stop fired = Closed /\ exit_code fired = None /\
  exec_prim Close_Stop fired =
    (EvPanic "close of closed channel", with_exit 2 fired).
Proof. vm_compute. repeat split. Qed.

(** C2, amended: the program fires the signal at most once.  In every
    execution [close(stopCh)] is executed at most once, by the main flow;
    no statement panics; the channel is closed exactly when that one entry
    is in the history; and once closed it stays closed. *)
Theorem stop_closed_once :
  (forall newer e older,
      hist s = newer ++ e :: older -> e_ev e = EvDo Close_Stop ->
      e_tid e = O /\ forall o, In o older -> e_ev o <> EvDo Close_Stop) /\
  (forall e msg, In e (hist s) -> e_ev e <> EvPanic msg) /\
  (stop s = Closed <-> exists e, In e (hist s) /\ e_ev e = EvDo Close_Stop) /\
  (stop s = Closed -> forall more, stop (run s more) = Closed).
Proof.
  pose proof reachable as I.
  pose proof (inv_hist s I) as Hok.
  split; [|split; [|split]].
  - intros newer e older Hh Hev. rewrite Hh in Hok. split.
    + apply (close_entry newer older e Hok Hev).
    + apply (close_once newer older e Hok Hev).
  - intros e msg He. now apply no_panic with (h := hist s).
  - now apply stop_closed_hist.
  - intros Hc more.
    apply (stop_closed_hist s I) in Hc. destruct Hc as (e & He & Hev).
    apply (stop_closed_hist (run s more) (Inv_run s more I)).
    exists e. split; [|exact Hev].
    destruct (hist_run s more) as (newer & ->).
    apply in_or_app. now right.
Qed.

(** ** Registration before delivery *)

(** C3: in every execution, an entry that starts the informer factory
    delivering the events of resource kind [k] comes after the entry of
    the main flow that registered the handler of [k]. *)
Theorem registration_before_delivery
    (k : ResourceKind) (newer older : list entry) (e : entry) :
  hist s = newer ++ e :: older ->
  e_ev e = EvDo (Factory_Start (factory_of k)) ->
  exists r, In r older /\ e_tid r = O /\ e_ev r = EvDo (RegisterHandler k).
Proof.
  intros Hh Hev.
  pose proof (inv_hist s reachable) as Hok.
  rewrite Hh in Hok. apply hist_ok_split in Hok.
  destruct Hok as [[_ Hem] Hok].
  destruct (entry_cases older e Hem)
    as [[_ Hm]|[(_ & Hsp & _ & He)|[(_ & Hsp & Hd)|(_ & _ & Hs)]]].
  - rewrite Hev in Hm. simpl in Hm. discriminate.
  - rewrite Hev in He. injection He as Hf.
    destruct (registered_before_go older 1 k Hok Hsp)
      as (n1 & g & o1 & r & -> & _ & _ & Hr & Hr0 & Hrev); [left; auto|].
    exists r. split; [now apply In_older | auto].
  - destruct Hd as [[He _]|[[He _]|[He _]]]; rewrite Hev in He;
      try discriminate.
    injection He as Hf.
    destruct (registered_before_go older 2 k Hok Hsp)
      as (n1 & g & o1 & r & -> & _ & _ & Hr & Hr0 & Hrev); [right; auto|].
    exists r. split; [now apply In_older | auto].
  - not_server Hs Hev.
Qed.

(** ** The staggered start *)


(** ** Failures before anything is started *)

(** C5: when the configuration file cannot be loaded or the logger cannot
    be built, then under every schedule the process has one thread only,
    its history is a beginning of: the failing call, the diagnostic on the
    error stream, [os.Exit(1)]; no goroutine, watcher or server has been
    created; if the process has exited, it has with status 1 right after
    the diagnostic; and it has exited once the main flow has run four
    statements. *)
Theorem fatal_before_startup (t err : string) :
  early_failure w fl = Some (t, err) ->
  List.length (threads s) = 1%nat /\
  (exists n,
      tagged (hist s) =
        rev (map (fun a => (O, EvDo a))
               (firstn n (early_prefix w fl ++
                          [Fprintf_Stderr (t ++ nl) [err]; Os_Exit 1])))) /\
  (forall e, In e (hist s) -> starts_something (e_ev e) = false) /\
  (forall c, exit_code s = Some c ->
     c = 1 /\ exists rest,
       tagged (hist s) =
         (O, EvDo (Os_Exit 1)) ::
         (O, EvDo (Fprintf_Stderr (t ++ nl) [err])) :: rest) /\
  ((4 <= count_main sched)%nat -> exit_code s = Some 1).
Proof.
  intros Hf.
  destruct (early_failure_code w fl t err Hf) as (Hrun & Hpl & Hlen & Hq).
  set (pre := early_prefix w fl ++ [Fprintf_Stderr (t ++ nl) [err]]) in *.
  assert (Hprog : early_prefix w fl ++ [Fprintf_Stderr (t ++ nl) [err]; Os_Exit 1]
                  = pre ++ [Os_Exit 1]).
  { unfold pre. now rewrite <- app_assoc. }
  assert (Hlp : List.length pre = S (List.length (early_prefix w fl))).
  { unfold pre. rewrite length_app. simpl. lia. }
  destruct (seq_run sched pre (init w fl) Hpl) as (H1 & H2 & H3);
    [reflexivity | simpl; now rewrite Hrun | reflexivity |].
  fold s in H1, H2, H3. simpl in H2. rewrite app_nil_r in H2.
  split; [exact H1|]. split; [|split; [|split]].
  - exists (count_main sched). now rewrite Hprog.
  - intros e He.
    assert (Hin : In (e_tid e, e_ev e) (tagged (hist s))).
    { unfold tagged. now apply (in_map (fun e => (e_tid e, e_ev e))). }
    rewrite H2 in Hin. apply in_rev in Hin. apply in_map_iff in Hin.
    destruct Hin as (a & Ha & Hin). injection Ha as _ <-.
    apply In_firstn_In in Hin. apply in_app_or in Hin.
    destruct Hin as [Hin|[<-|[]]]; [|reflexivity].
    unfold pre in Hin. apply in_app_or in Hin.
    destruct Hin as [Hin|[<-|[]]]; [now apply Hq | reflexivity].
  - intros c Hc. rewrite H3 in Hc.
    destruct (List.length pre <? count_main sched)%nat eqn:E; [|discriminate].
    injection Hc as <-. split; [reflexivity|].
    apply Nat.ltb_lt in E. rewrite H2.
    rewrite firstn_all2 by (rewrite length_app; simpl; lia).
    unfold pre. rewrite map_app, rev_app_distr. simpl.
    rewrite map_app, rev_app_distr. simpl. eauto.
  - intros Hn. rewrite H3.
    destruct (List.length pre <? count_main sched)%nat eqn:E; [reflexivity|].
    apply Nat.ltb_ge in E. lia.
Qed.

(** ** The server goroutine *)


(** ** Exit status *)


(** ** Signals *)


(** ** The delay *)

(** C9: whatever the collaborators return and whatever the command line
    is, the only sleep of the program is the one of goroutine 2, it asks
    for [time.Duration(10) * time.Second], which is ten seconds (no
    wrap-around of the 64-bit product), and the custom-resource factory is
    started at least that long after the sleep began. *)
Theorem warmup_is_ten_seconds :
  dur_mul 10 Second = 10 * Second /\
  10 * Second = 10000000000 /\
  (forall p, nth_error (threads s) 2 = Some p -> lhist 2 (hist s) = [] ->
             p = Sleep (10 * Second) start_crd) /\
  (forall newer e older d,
      hist s = newer ++ e :: older -> e_ev e = EvSleep d ->
      e_tid e = 2%nat /\ d = 10 * Second) /\
  (forall newer e older,
      hist s = newer ++ e :: older ->
      e_ev e = EvDo (Factory_Start SharedInformerFactory) ->
      exists sl, In sl older /\ e_tid sl = 2%nat /\
                 e_ev sl = EvSleep (10 * Second) /\
                 e_time sl + 10 * Second <= e_time e).
Proof.
  pose proof reachable as I.
  pose proof (inv_hist s I) as Hok.
  split; [reflexivity|]. split; [reflexivity|]. split; [|split].
  - intros p Hp Hl. pose proof (delayed_code s p I Hp) as Hst.
    rewrite Hl in Hst. inversion Hst. reflexivity.
  - intros newer e older d Hh Hev. rewrite Hh in Hok.
    apply (sleep_entry newer older e d Hok Hev).
  - intros newer e older Hh Hev. rewrite Hh in Hok.
    destruct (crd_start_entry newer older e Hok Hev)
      as (_ & g & sl & _ & _ & _ & Hsl & Hsl2 & Hslev & _ & Hle).
    exists sl. auto.
Qed.

(** ** Configuration file and flags *)

(** C10: with a non-empty [--config-path] whose file loads, [Run] continues
    with the configuration of the file and nothing of the flag-populated
    object; with an empty [--config-path] it continues with the
    flag-populated object; and two command lines with the same non-empty
    [--config-path] behave the same under every schedule, whatever their
    other flags. *)
Theorem config_file_overrides_flags :
  (forall c,
      configPath fl <> EmptyString ->
      NewConfigFromFile w (configPath fl) = inl c ->
      Run w fl = (Config_NewConfigFromFile (configPath fl) ;; startup w c)%proc) /\
  (configPath fl = EmptyString ->
   Run w fl = startup w (bind_flags fl (NewDefaultConfig w))) /\
  (forall fl' sched',
      configPath fl <> EmptyString -> configPath fl' = configPath fl ->
      run (init w fl') sched' = run (init w fl) sched').
Proof.
  split; [|split].
  - intros c Hne Hload. unfold Run.
    destruct (String.eqb (configPath fl) "") eqn:E.
    + apply configPath_empty in E. contradiction.
    + simpl. now rewrite Hload.
  - intros He. unfold Run. rewrite He. reflexivity.
  - intros fl' sched' Hne Heq.
    assert (HR : Run w fl' = Run w fl).
    { unfold Run. rewrite Heq.
      destruct (String.eqb (configPath fl) "") eqn:E; [|reflexivity].
      apply configPath_empty in E. contradiction. }
    unfold init. now rewrite HR.
Qed.

End Executions.

(** * The claims at sample inputs *)

Lemma delayed_start_unconditional_witness :
  let s := run (init w_good no_flags)
               sched_cancel_woken in
  stop s = Closed /\
  hist (step s (ActRun 2)) =
    {| e_time := clock s; e_tid := 2;
       e_ev := EvDo (Factory_Start SharedInformerFactory) |} :: hist s.
Proof.
  intros s. split; [vm_compute; reflexivity|].
  destruct (delayed_start_unconditional w_good no_flags
              sched_cancel_woken) as (_ & H & _).
  apply (H (nth 0 (hist s) no_entry) (nth 4 (hist s) no_entry));
    vm_compute; reflexivity.
Defined.

Lemma stop_closed_once_witness :
  let s := run (init w_good no_flags) sched_closed in
  e_tid (hd no_entry (hist s)) = O /\
  forall o, In o (tl (hist s)) -> e_ev o <> EvDo Close_Stop.
Proof.
  intros s.
  destruct (stop_closed_once w_good no_flags sched_closed) as (H & _).
  apply (H [] _ (tl (hist s))); vm_compute; reflexivity.
Defined.

Lemma registration_before_delivery_witness :
  exists r,
    In r (tl (hist (run (init w_good no_flags) sched_started))) /\
    e_tid r = O /\ e_ev r = EvDo (RegisterHandler ApisixTLS).
Proof.
  apply (registration_before_delivery w_good no_flags sched_started ApisixTLS []
           (tl (hist (run (init w_good no_flags) sched_started)))
           {| e_time := 10 * Second; e_tid := 2;
              e_ev := EvDo (Factory_Start SharedInformerFactory) |});
    vm_compute; reflexivity.
Defined.


Lemma fatal_before_startup_witness :
  let sched := [ActRun 0; ActTick Second; ActSignal SIGINT; ActRun 0;
                ActRun 1; ActRun 0; ActRun 0] in
  let s := run (init w_bad_config file_flags) sched in
  let s' := run (init w_bad_logger no_flags) sched in
  (List.length (threads s) = 1%nat /\ exit_code s = Some 1 /\
   tagged (hist s) =
     [(O, EvDo (Os_Exit 1));
      (O, EvDo (Fprintf_Stderr
                  ("failed to initialize configuration: %s" ++ nl)
                  ["no such file"%string]));
      (O, EvDo (Config_NewConfigFromFile "/conf/config.json"))]) /\
  (List.length (threads s') = 1%nat /\ exit_code s' = Some 1).
Proof.
  intros sched s s'. split.
  - destruct (fatal_before_startup w_bad_config file_flags sched
                "failed to initialize configuration: %s" "no such file"
                eq_refl)
      as (H1 & _ & _ & _ & H5).
    split; [exact H1|]. split; [apply H5; vm_compute; lia|].
    vm_compute. reflexivity.
  - destruct (fatal_before_startup w_bad_logger no_flags sched
                "failed to initialize logging: %s" "unknown log level"
                eq_refl)
      as (H1 & _ & _ & _ & H5).
    split; [exact H1|]. apply H5. vm_compute. lia.
Defined.




Lemma warmup_is_ten_seconds_witness :
  let s := run (init w_good file_flags') sched_started in
  exists sl, In sl (tl (hist s)) /\ e_tid sl = 2%nat /\
             e_ev sl = EvSleep (10 * Second) /\
             e_time sl + 10 * Second <= e_time (hd no_entry (hist s)).
Proof.
  intros s.
  destruct (warmup_is_ten_seconds w_good file_flags' sched_started)
    as (_ & _ & _ & _ & H).
  apply (H [] _ (tl (hist s))); vm_compute; reflexivity.
Defined.

Lemma config_file_overrides_flags_witness :
  Run w_good file_flags =
    (Config_NewConfigFromFile "/conf/config.json" ;; startup w_good cfg_file)%proc /\
  run (init w_good file_flags') sched_started =
    run (init w_good file_flags) sched_started.
Proof.
  destruct (config_file_overrides_flags w_good file_flags) as (H1 & _ & H3).
  split.
  - apply (H1 cfg_file); [discriminate | reflexivity].
  - apply (H3 file_flags' sched_started); [discriminate | reflexivity].
Defined.

(** * Further properties of the code *)

(** ** The main flow follows the script of [Run] *)

Lemma script_recv_free (p : proc) (sg sg' : Signal) :
  recv_free p = true -> forall n, script sg n p = script sg' n p.
Proof.
  induction p as [|a k IH|c _ k IH|d k IH|t k IH|k IH|k IH];
    intros Hf n; simpl in *; try discriminate; try reflexivity.
  - now rewrite (IH Hf n).
  - now rewrite (IH Hf (S n)).
  - now rewrite (IH Hf n).
  - now rewrite (IH Hf n).
Qed.

(** An entry is made by the thread the action names. *)
Lemma hist_step_tid (s : State) (a : action) :
  hist (step s a) = hist s \/
  exists tid ev,
    hist (step s a) = {| e_time := clock s; e_tid := tid; e_ev := ev |} :: hist s /\
    (a = ActRun tid \/
     exists err k, a = ActSrvReturn tid err /\
                   nth_error (threads s) tid = Some (SrvRun k)).
Proof.
  unfold step. destruct (exit_code s); [now left|].
  destruct a as [tid|dt|sg|tid err].
  - destruct (nth_error (threads s) tid) as [p|]; [|now left].
    destruct (thread_step s p) as [[[ev p'] s']|] eqn:Hts; [|now left].
    right. exists tid, ev. split; [|now left].
    unfold commit. simpl. reflexivity.
  - now left.
  - destruct (_ && _); now left.
  - destruct (nth_error (threads s) tid) as [p|] eqn:Hp; [|now left].
    destruct p; try now left.
    destruct (srv_may_return s err); [|now left].
    right. exists tid, (EvSrvReturn err). split; [reflexivity|].
    right. now exists err, k.
Qed.

Lemma main_not_SrvRun (h : list event) (p : proc) :
  main_ok h p -> forall k, p <> SrvRun k.
Proof. intros H k ->. inversion H. Qed.

(** Only the main flow adds to the history of the main flow. *)
Lemma other_step_main_hist (s : State) (a : action) :
  Inv s -> a <> ActRun 0 -> proj 0 (hist (step s a)) = proj 0 (hist s).
Proof.
  intros I Hne.
  destruct (hist_step_tid s a) as [->|(tid & ev & -> & Ha)]; [reflexivity|].
  apply proj_cons_other. simpl. intros ->.
  destruct Ha as [->|(err & k & _ & Hp)]; [congruence|].
  destruct (inv_threads s I) as (main & kids & Hth & Hmain & _).
  rewrite Hth in Hp. injection Hp as ->.
  now apply (main_not_SrvRun _ _ Hmain k).
Qed.

Lemma rev_cons_app (A : Type) (x : A) (l r : list A) :
  rev (x :: l) ++ r = rev l ++ x :: r.
Proof. simpl. now rewrite <- app_assoc. Qed.

Lemma follows_step (w : World) (fl : Flags) (s : State) (a : action) :
  Inv s -> follows w fl s -> follows w fl (step s a).
Proof.
  intros I F.
  destruct (exit_code s) as [c|] eqn:Hal.
  { now rewrite (step_exited s a c Hal). }
  destruct F as (main & Hm & Hs).
  destruct (inv_threads s I) as (main0 & kids & Hth & Hmain & Hlen & _).
  rewrite Hth in Hm. injection Hm as ->.
  destruct (action_eq_main a) as [->|Hne].
  - unfold step. rewrite Hal, Hth. simpl nth_error. cbv beta iota.
    destruct (thread_step s main) as [[[ev p'] s']|] eqn:Hts;
      [|exists main; rewrite Hth; auto].
    assert (Hn : nth_error (threads (commit s 0 ev p' s')) 0 = Some p').
    { change (nth_error (set_nth 0 p' (threads s')) 0 = Some p').
      apply nth_error_set_nth_same with (y := main).
      apply (nth_error_grown s s'); [|now rewrite Hth].
      now apply (thread_step_threads s s' main p' ev). }
    exists p'. split; [exact Hn|].
    assert (Hp : proj 0 (hist (commit s 0 ev p' s')) = ev :: proj 0 (hist s)).
    { unfold commit. simpl hist. now rewrite proj_cons_same. }
    rewrite Hp.
    inversion Hmain as [h Hend|h a k Hok Hk|h child k Hgo Hk|h Hsub Htl Hop];
      subst main.
    + discriminate.
    + simpl in Hts.
      destruct (exec_prim_main s (proj 0 (hist s)) a Hok
                  (inv_stop s I) (inv_notified s I) Hal) as (s0 & Hx & _).
      rewrite Hx in Hts. injection Hts as <- <- <-.
      destruct Hs as [Hs|(sg & Hsg & Hf & Hs)].
      * left. intros sg. rewrite rev_cons_app. apply Hs.
      * right. exists sg. split; [exact Hsg|]. split; [exact Hf|].
        rewrite rev_cons_app. apply Hs.
    + simpl in Hts. injection Hts as <- <- <-.
      rewrite Hth. simpl List.length. rewrite Hlen.
      destruct Hs as [Hs|(sg & Hsg & Hf & Hs)].
      * left. intros sg. rewrite rev_cons_app. apply Hs.
      * right. exists sg. split; [exact Hsg|]. split; [exact Hf|].
        rewrite rev_cons_app. apply Hs.
    + simpl in Hts. destruct (sigCh s) as [|sg0 q] eqn:Hq; [discriminate|].
      injection Hts as <- <- <-.
      destruct Hs as [Hs|(sg & _ & Hf & _)]; [|discriminate].
      right. exists sg0. split.
      { apply (inv_sigCh s I). rewrite Hq. now left. }
      split; [reflexivity|].
      rewrite rev_cons_app. apply Hs.
  - exists main. split.
    + apply step_other_thread; [exact Hne| |now rewrite Hth].
      now apply (main_not_SrvRun _ _ Hmain).
    + now rewrite (other_step_main_hist s a I Hne).
Qed.

Lemma follows_init (w : World) (fl : Flags) : follows w fl (init w fl).
Proof. exists (Run w fl). split; [reflexivity|]. left. reflexivity. Qed.

Lemma follows_run (w : World) (fl : Flags) (sched : list action) :
  forall s, Inv s -> follows w fl s -> follows w fl (run s sched).
Proof.
  induction sched as [|a sched IH]; intros s I F; [exact F|].
  simpl. apply IH; [now apply Inv_step | now apply follows_step].
Qed.

Lemma follows_reachable (w : World) (fl : Flags) (sched : list action) :
  follows w fl (run (init w fl) sched).
Proof. apply follows_run; [apply Inv_init | apply follows_init]. Qed.

(** ** Straight-line failures *)

Lemma Run_settled (w : World) (fl : Flags) (cfg : Config) :
  settled_config w fl = Some cfg ->
  Run w fl = fold_right Do (startup w cfg) (load_prefix fl).
Proof.
  unfold settled_config, Run, load_prefix.
  destruct (String.eqb (configPath fl) ""); simpl.
  - now intros [= <-].
  - destruct (NewConfigFromFile w (configPath fl)); [|discriminate].
    now intros [= <-].
Qed.

Lemma seq_prims_app (l : list prim) (r : list prim) :
  fold_right Do (seq_prims r) l = seq_prims (l ++ r).
Proof. induction l as [|a l IH]; simpl; [reflexivity | now rewrite IH]. Qed.

Lemma load_prefix_plain (fl : Flags) :
  Forall (fun a => plain a = true) (load_prefix fl).
Proof.
  unfold load_prefix. destruct (String.eqb (configPath fl) "");
    repeat constructor.
Qed.

Lemma events_tagged (s : State) : events s = rev (tagged (hist s)).
Proof. unfold events, trace, tagged. apply map_rev. Qed.

(** A main flow that is a straight line to [os.Exit(1)] stays alone, does
    its statements in order and ends the process with its last one. *)
Lemma straight_run (w : World) (fl : Flags) (sched : list action) (pre : list prim) :
  Run w fl = seq_prims (pre ++ [Os_Exit 1]) ->
  Forall (fun a => plain a = true) pre ->
  let s := run (init w fl) sched in
  events s =
    map (fun a => (O, EvDo a)) (firstn (count_main sched) (pre ++ [Os_Exit 1])) /\
  List.length (threads s) = 1%nat /\
  (exit_code s = Some 1 <->
   (List.length (pre ++ [Os_Exit 1]) <= count_main sched)%nat) /\
  (forall c, exit_code s = Some c -> c = 1).
Proof.
  intros HR Hpl s.
  destruct (seq_run sched pre (init w fl) Hpl) as (H1 & H2 & H3);
    [reflexivity | simpl; now rewrite HR | reflexivity |].
  fold s in H1, H2, H3. simpl in H2. rewrite app_nil_r in H2.
  assert (Hlen : List.length (pre ++ [Os_Exit 1]) = S (List.length pre)).
  { rewrite length_app. simpl. lia. }
  split; [|split; [exact H1|split]].
  - rewrite events_tagged, H2. apply rev_involutive.
  - rewrite H3, Hlen.
    destruct (List.length pre <? count_main sched)%nat eqn:E.
    + apply Nat.ltb_lt in E. split; [lia | reflexivity].
    + apply Nat.ltb_ge in E. split; [discriminate | lia].
  - intros c. rewrite H3.
    destruct (List.length pre <? count_main sched)%nat; [|discriminate].
    now intros [= <-].
Qed.

(** ** The script of [Run] *)

Lemma script_fold (sg : Signal) (n : nat) (l : list prim) (p : proc) :
  script sg n (fold_right Do p l) = map EvDo l ++ script sg n p.
Proof. induction l as [|a l IH]; simpl; [reflexivity | now rewrite IH]. Qed.

(** The script of [startup] once the logger, the encoding and the
    informers have succeeded: it ends with the failure of [api.NewServer],
    or goes on to the wait for a signal and the return. *)
Lemma script_startup (w : World) (cfg : Config) (data : string) (sg : Signal) :
  NewLogger w (LogLevel cfg) (LogOutput cfg) = None ->
  MarshalIndent w cfg = (data, None) ->
  InitInformer w cfg = None ->
  script sg 0 (startup w cfg) =
    firstn 22 (startup_events w cfg data) ++
    match NewServer w cfg with
    | Some err =>
      [ EvDo (Fprintf_Stderr ("failed to create API Server: %s" ++ nl) [err]);
        EvDo (Os_Exit 1) ]
    | None => skipn 22 (startup_events w cfg data) ++ shutdown_events sg
    end.
Proof.
  intros Hlog Henc Hinf. unfold startup. rewrite Hlog, Henc, Hinf.
  destruct (NewServer w cfg); reflexivity.
Qed.

Lemma prefix_firstn (A : Type) (a b l : list A) :
  l = a ++ b -> a = firstn (List.length a) l.
Proof.
  intros ->. rewrite firstn_app, Nat.sub_diag, firstn_all. simpl.
  now rewrite app_nil_r.
Qed.

Lemma count_go_app (l r : list event) :
  count_go (l ++ r) = (count_go l + count_go r)%nat.
Proof.
  induction l as [|ev l IH]; [reflexivity|].
  destruct ev; simpl; rewrite IH; reflexivity.
Qed.

Lemma count_go_rev (l : list event) : count_go (rev l) = count_go l.
Proof.
  induction l as [|ev l IH]; [reflexivity|].
  simpl rev. rewrite count_go_app, IH.
  destruct ev; simpl; lia.
Qed.

Lemma count_go_main (s : State) :
  count_go (proj 0 (hist s)) = count_go (main_events s).
Proof. unfold main_events. now rewrite count_go_rev. Qed.

(** The main flow of a reachable state: its code, and the script that its
    events begin. *)
Lemma main_script (w : World) (fl : Flags) (sched : list action) :
  let s := run (init w fl) sched in
  exists main sg,
    nth_error (threads s) 0 = Some main /\
    (sg = SIGINT \/ sg = SIGTERM) /\
    script sg 0 (Run w fl) =
      main_events s ++ script sg (count_go (main_events s)) main.
Proof.
  intros s. rewrite <- count_go_main.
  destruct (follows_reachable w fl sched)
    as (main & Hm & [Hs|(sg & Hsg & _ & Hs)]); fold s in Hm, Hs.
  - exists main, SIGINT. split; [exact Hm|]. split; [now left | apply Hs].
  - exists main, sg. split; [exact Hm|]. split; [exact Hsg | apply Hs].
Qed.

Lemma threads_count (s : State) :
  Inv s -> List.length (threads s) = S (count_go (main_events s)).
Proof.
  intros I. destruct (inv_threads s I) as (main & kids & -> & _ & Hlen & _).
  simpl. now rewrite Hlen, count_go_main.
Qed.

Lemma count_go_firstn (n : nat) (l : list event) :
  (count_go (firstn n l) <= count_go l)%nat.
Proof.
  rewrite <- (firstn_skipn n l) at 2. rewrite count_go_app. lia.
Qed.

(** ** The signal channel *)







(** ** The two courses of [Run] *)

(** When no step of the initialisation fails, the script of [Run] is the
    load of the file if any, the statements of [startup] and the
    shutdown. *)
Lemma script_success (w : World) (fl : Flags) :
  init_failure w fl = false ->
  exists cfg data,
    settled_config w fl = Some cfg /\
    NewLogger w (LogLevel cfg) (LogOutput cfg) = None /\
    MarshalIndent w cfg = (data, None) /\
    InitInformer w cfg = None /\ NewServer w cfg = None /\
    forall sg,
      script sg 0 (Run w fl) =
        map EvDo (load_prefix fl) ++ startup_events w cfg data ++
        shutdown_events sg.
Proof.
  intros Hf.
  assert (Hc : exists cfg, settled_config w fl = Some cfg /\
                           startup_failure w cfg = false).
  { unfold init_failure in Hf. unfold settled_config.
    destruct (String.eqb (configPath fl) ""); [eauto|].
    destruct (NewConfigFromFile w (configPath fl)); [eauto | discriminate]. }
  destruct Hc as (cfg & Hcfg & Hs). unfold startup_failure in Hs.
  destruct (NewLogger w (LogLevel cfg) (LogOutput cfg)) eqn:Hlog;
    [discriminate|].
  destruct (MarshalIndent w cfg) as [data [e|]] eqn:Henc; [discriminate|].
  destruct (InitInformer w cfg) eqn:Hinf; [discriminate|].
  destruct (NewServer w cfg) eqn:Hsrv; [discriminate|].
  exists cfg, data. repeat (split; [assumption|]).
  intros sg. rewrite (Run_settled w fl cfg Hcfg), script_fold.
  rewrite (script_startup w cfg data sg Hlog Henc Hinf), Hsrv.
  reflexivity.
Qed.

(** When a step of the initialisation fails, [Run] has no receive. *)
Lemma script_failure (w : World) (fl : Flags) (sg : Signal) :
  init_failure w fl = true -> filter is_recv (script sg 0 (Run w fl)) = [].
Proof.
  assert (Hs : forall cfg, startup_failure w cfg = true ->
                 filter is_recv (script sg 0 (startup w cfg)) = []).
  { intros cfg. unfold startup_failure, startup.
    destruct (NewLogger w _ _); [reflexivity|].
    destruct (MarshalIndent w cfg) as [data [e|]]; [reflexivity|].
    destruct (InitInformer w cfg); [reflexivity|].
    destruct (NewServer w cfg); [reflexivity | discriminate]. }
  unfold init_failure, Run.
  destruct (String.eqb (configPath fl) ""); cbv beta iota zeta; unfold negb;
    [apply Hs|].
  destruct (NewConfigFromFile w (configPath fl)); [apply Hs | reflexivity].
Qed.

Lemma script_await (sg : Signal) (n : nat) :
  script sg n (await_signal shutdown_tail) = shutdown_events sg.
Proof. reflexivity. Qed.

(** A main flow that waits for a signal: the initialisation went through,
    and the main flow has done all of it. *)
Lemma awaiting_success (w : World) (fl : Flags) (sched : list action) :
  let s := run (init w fl) sched in
  nth_error (threads s) 0 = Some (await_signal shutdown_tail) ->
  init_failure w fl = false /\
  exists cfg data,
    settled_config w fl = Some cfg /\
    MarshalIndent w cfg = (data, None) /\
    main_events s = map EvDo (load_prefix fl) ++ startup_events w cfg data.
Proof.
  intros s Hm.
  destruct (main_script w fl sched) as (main & sg & Hm' & _ & Hs).
  fold s in Hm', Hs. rewrite Hm in Hm'. injection Hm' as <-.
  rewrite script_await in Hs.
  destruct (init_failure w fl) eqn:Hf.
  - pose proof (script_failure w fl sg Hf) as H0.
    rewrite Hs, filter_app in H0. simpl in H0.
    apply app_eq_nil in H0. destruct H0 as [_ H0]. discriminate.
  - split; [reflexivity|].
    destruct (script_success w fl Hf)
      as (cfg & data & Hcfg & _ & Henc & _ & _ & Hsc).
    exists cfg, data. split; [exact Hcfg|]. split; [exact Henc|].
    rewrite Hsc in Hs. rewrite app_assoc in Hs.
    now apply app_inv_tail in Hs.
Qed.

(** ** From the signal to the end of the process *)

Lemma exec_prim_threads (a : prim) (s : State) :
  threads (snd (exec_prim a s)) = threads s.
Proof. destruct a; simpl; try reflexivity. destruct (stop s); reflexivity. Qed.

Lemma ends_in_Do (a : prim) (k : proc) (n : nat) (s : State) :
  ends_in (Do a k) = Some n ->
  (exit_code (snd (exec_prim a s)) <> None /\ n = 1%nat) \/
  (exists n', ends_in k = Some n' /\ n = S n').
Proof.
  intros H.
  destruct a; simpl in H;
    try (destruct (ends_in k) as [n'|]; [|discriminate];
         injection H as <-; right; now exists n').
  - left. injection H as <-. split; [simpl; discriminate | reflexivity].
  - left. injection H as <-. split; [simpl; discriminate | reflexivity].
Qed.

Lemma ends_in_not_SrvRun (p : proc) (n : nat) :
  ends_in p = Some n -> forall k, p <> SrvRun k.
Proof. intros H k ->. discriminate. Qed.

Lemma alive_or_not (s : State) :
  exit_code s = None \/ exists c, exit_code s = Some c.
Proof. destruct (exit_code s) as [c|]; eauto. Qed.

(** A main flow on a straight line to its last statement: once it has run
    the statements that are left, the process has ended. *)
Lemma ends_run (more : list action) :
  forall (s : State) (p : proc) (n : nat),
    nth_error (threads s) 0 = Some p -> ends_in p = Some n ->
    (n <= count_main more)%nat -> exit_code (run s more) <> None.
Proof.
  induction more as [|a more IH]; intros s p n Hp Hd Hn.
  - unfold count_main in Hn. simpl in Hn.
    destruct p; simpl in Hd; try discriminate.
    + destruct (ends_in_Do a p n s Hd) as [(_ & ->)|(n' & _ & ->)]; lia.
    + destruct (ends_in p2); [|discriminate]. injection Hd as <-. lia.
  - simpl run. destruct (alive_or_not s) as [Hal|(c & Hal)].
    2:{ rewrite (step_exited s a c Hal), (run_exited s more c Hal), Hal.
        discriminate. }
    destruct (action_eq_main a) as [->|Hne].
    + destruct p; simpl in Hd; try discriminate.
      * assert (E : step s (ActRun 0) =
                    commit s 0 (fst (exec_prim a s)) p (snd (exec_prim a s))).
        { unfold step. rewrite Hal, Hp. simpl.
          now destruct (exec_prim a s). }
        rewrite E.
        destruct (ends_in_Do a p n s Hd) as [(Hx & ->)|(n' & Hk & ->)].
        -- destruct (alive_or_not (commit s 0 (fst (exec_prim a s)) p
                                     (snd (exec_prim a s))))
             as [Hc|(c & Hc)]; [now simpl in Hc|].
           now rewrite (run_exited _ more c Hc), Hc.
        -- apply (IH _ p n'); [|exact Hk|].
           ++ change (nth_error (set_nth 0 p (threads (snd (exec_prim a s)))) 0
                      = Some p).
              rewrite exec_prim_threads.
              now apply nth_error_set_nth_same with (y := Do a p).
           ++ unfold count_main in *. simpl in Hn. lia.
      * destruct (ends_in p2) as [n'|] eqn:Hk; [|discriminate].
        injection Hd as <-.
        assert (E : step s (ActRun 0) =
                    commit s 0 (EvGo (List.length (threads s))) p2
                      (with_threads (threads s ++ [p1]) s)).
        { unfold step, thread_step. rewrite Hal, Hp. reflexivity. }
        rewrite E. apply (IH _ p2 n'); [|exact Hk|].
        -- change (nth_error (set_nth 0 p2 (threads s ++ [p1])) 0 = Some p2).
           apply nth_error_set_nth_same with (y := Go p1 p2).
           rewrite nth_error_app1; [exact Hp|].
           now apply nth_error_Some_lt in Hp.
        -- unfold count_main in *. simpl in Hn. lia.
    + apply (IH _ p n); [|exact Hd|].
      * apply step_other_thread; auto. now apply (ends_in_not_SrvRun p n).
      * now rewrite (count_main_other a more Hne) in Hn.
Qed.

(** The goroutines of the file leave the signal channel alone. *)
Lemma kid_step_sigCh (s s' : State) (h : list entry) (i : nat)
      (p p' : proc) (ev : event) :
  kid_st h (S i) p -> thread_step s p = Some (ev, p', s') ->
  sigCh s' = sigCh s.
Proof.
  intros Hst Hts.
  destruct i as [|[|[|i]]]; simpl in Hst; [| | |contradiction];
    inversion Hst; subst; simpl in Hts; try discriminate;
    try (now injection Hts as <- <- <-).
  destruct (_ <=? _); [|discriminate]. now injection Hts as <- <- <-.
Qed.

Lemma other_step_sigCh (s : State) (a : action) :
  Inv s -> a <> ActRun 0 -> sigCh s <> [] -> sigCh (step s a) <> [].
Proof.
  intros I Hne Hq. unfold step. destruct (exit_code s); [exact Hq|].
  destruct (inv_threads s I) as (main & kids & Hth & _ & _ & Hkids).
  destruct a as [[|i]|dt|sg|tid err]; try congruence.
  - rewrite Hth. simpl.
    destruct (nth_error kids i) as [p|] eqn:Hp; [|exact Hq].
    destruct (thread_step s p) as [[[ev p'] s']|] eqn:Hts; [|exact Hq].
    destruct (Hkids i p Hp) as [_ Hst].
    unfold commit. simpl.
    now rewrite (kid_step_sigCh s s' (hist s) i p p' ev Hst Hts).
  - exact Hq.
  - destruct (_ && _); [|exact Hq]. simpl.
    destruct (sigCh s); [congruence | discriminate].
  - destruct (nth_error (threads s) tid) as [p|]; [|exact Hq].
    destruct p; try exact Hq.
    destruct (srv_may_return s err); exact Hq.
Qed.

(** A main flow that waits while a signal is in the channel: once it has
    run five times, the process has ended. *)
Lemma await_run (more : list action) :
  forall s : State,
    Inv s -> nth_error (threads s) 0 = Some (await_signal shutdown_tail) ->
    sigCh s <> [] -> (5 <= count_main more)%nat ->
    exit_code (run s more) <> None.
Proof.
  induction more as [|a more IH]; intros s I Hp Hq Hn.
  - unfold count_main in Hn. simpl in Hn. lia.
  - simpl run. destruct (alive_or_not s) as [Hal|(c & Hal)].
    2:{ rewrite (step_exited s a c Hal), (run_exited s more c Hal), Hal.
        discriminate. }
    destruct (action_eq_main a) as [->|Hne].
    + destruct (sigCh s) as [|sg q] eqn:Hs; [congruence|].
      apply (ends_run more _
               (Log_Infof "signal %d (%s) received" [VSignal sg; VSignalString sg] ;;
                Close_Stop ;; shutdown_tail)%proc 4).
      * unfold step. rewrite Hal, Hp. simpl. rewrite Hs.
        change (nth_error
                  (set_nth 0 (Log_Infof "signal %d (%s) received"
                                [VSignal sg; VSignalString sg] ;;
                              Close_Stop ;; shutdown_tail)%proc (threads s)) 0
                = Some (Log_Infof "signal %d (%s) received"
                          [VSignal sg; VSignalString sg] ;;
                        Close_Stop ;; shutdown_tail)%proc).
        now apply nth_error_set_nth_same with (y := await_signal shutdown_tail).
      * reflexivity.
      * unfold count_main in *. simpl in Hn. lia.
    + apply IH.
      * now apply Inv_step.
      * apply step_other_thread; auto. intros k H. discriminate.
      * now apply other_step_sigCh.
      * now rewrite (count_main_other a more Hne) in Hn.
Qed.

(** The main flow alone, from the receive to the return. *)
Lemma receive_then_return (s : State) (kids : list proc) (sg : Signal)
      (q : list Signal) :
  exit_code s = None -> threads s = await_signal shutdown_tail :: kids ->
  stop s = Open -> sigCh s = sg :: q ->
  let s' := run s (repeat (ActRun 0) 5) in
  exit_code s' = Some 0 /\ stop s' = Closed /\ threads s' = Done :: kids /\
  hist s' =
    map (fun ev => {| e_time := clock s; e_tid := 0; e_ev := ev |})
      (rev (shutdown_events sg)) ++ hist s.
Proof.
  intros Hal Hth Hst Hq. unfold run. simpl fold_left.
  assert (E1 : step s (ActRun 0) =
               commit s 0 (EvRecv sg)
                 (Log_Infof "signal %d (%s) received"
                    [VSignal sg; VSignalString sg] ;; Close_Stop ;;
                  shutdown_tail)%proc (with_sigCh q s)).
  { unfold step. rewrite Hal, Hth. simpl. rewrite Hq. reflexivity. }
  rewrite E1. clear E1.
  unfold step, commit. simpl.
  repeat (progress (rewrite ?Hal, ?Hth, ?Hst; simpl)).
  repeat split; auto.
Qed.

(** When the initialisation goes through, the main flow never calls
    [os.Exit]. *)
Lemma success_main_no_exit (w : World) (fl : Flags) (sched : list action)
      (e : entry) (c : Z) :
  init_failure w fl = false ->
  In e (hist (run (init w fl) sched)) -> e_tid e = O ->
  e_ev e <> EvDo (Os_Exit c).
Proof.
  intros Hf He Ht Hev.
  destruct (script_success w fl Hf) as (cfg & data & _ & _ & _ & _ & _ & Hsc).
  destruct (main_script w fl sched) as (main & sg & _ & _ & Hs).
  assert (Hin : In (EvDo (Os_Exit c)) (script sg 0 (Run w fl))).
  { rewrite Hs. apply in_or_app. left. unfold main_events.
    rewrite <- in_rev, <- Hev. now apply In_proj. }
  rewrite Hsc in Hin.
  apply in_app_or in Hin. destruct Hin as [Hin|Hin].
  - unfold load_prefix in Hin.
    destruct (String.eqb (configPath fl) ""); simpl in Hin;
      [contradiction|]. destruct Hin as [Hin|[]]. discriminate.
  - simpl in Hin.
    repeat (destruct Hin as [Hin|Hin]; [discriminate|]). contradiction.
Qed.

(** ** The main flow gets to the wait *)

Lemma count_main_snoc (sched : list action) (a : action) :
  count_main (sched ++ [a]) =
  (count_main sched + match a with ActRun O => 1 | _ => 0 end)%nat.
Proof.
  unfold count_main. rewrite filter_app, length_app. simpl.
  destruct a as [[|i]| | |]; reflexivity.
Qed.

Lemma run_snoc (s : State) (sched : list action) (a : action) :
  run s (sched ++ [a]) = step (run s sched) a.
Proof. unfold run. now rewrite fold_left_app. Qed.

Lemma main_events_length (s : State) :
  List.length (main_events s) = List.length (proj 0 (hist s)).
Proof. unfold main_events. apply length_rev. Qed.

(** The main flow is never blocked before it waits for a signal: while
    the process is alive, every turn it is given adds a statement to its
    history, up to the [N] statements that come before the wait. *)
Lemma main_advances (w : World) (fl : Flags) (N : nat) :
  (forall sched,
      nth_error (threads (run (init w fl) sched)) 0
        = Some (await_signal shutdown_tail) ->
      (N <= List.length (main_events (run (init w fl) sched)))%nat) ->
  forall sched,
    exit_code (run (init w fl) sched) <> None \/
    (Nat.min N (count_main sched)
       <= List.length (main_events (run (init w fl) sched)))%nat.
Proof.
  intros Hwait sched.
  induction sched as [|a sched IH] using rev_ind.
  - right. unfold count_main. simpl. lia.
  - rewrite run_snoc, count_main_snoc.
    set (s := run (init w fl) sched) in *.
    pose proof (Inv_reachable w fl sched) as I. fold s in I.
    destruct (alive_or_not s) as [Hal|(c & Hal)].
    2:{ left. rewrite (step_exited s a c Hal), Hal. discriminate. }
    destruct IH as [IH|IH]; [congruence|].
    right. rewrite main_events_length in *.
    destruct (action_eq_main a) as [->|Hne].
    + destruct (inv_threads s I) as (main & kids & Hth & Hmain & _).
      assert (Hstep : (exists ev p' s', thread_step s main = Some (ev, p', s'))
                      \/ main = await_signal shutdown_tail).
      { inversion Hmain; subst; [left|left|left|now right];
          apply (main_progress s _ kids I Hal Hth); discriminate. }
      destruct Hstep as [(ev & p' & s' & Hts)| ->].
      * assert (E : hist (step s (ActRun 0)) =
                    {| e_time := clock s; e_tid := 0; e_ev := ev |} :: hist s).
        { unfold step. rewrite Hal, Hth. simpl nth_error. cbv beta iota.
          rewrite Hts. reflexivity. }
        rewrite E, proj_cons_same by reflexivity. simpl. lia.
      * pose proof (Hwait sched) as Hw. fold s in Hw.
        rewrite Hth in Hw. specialize (Hw eq_refl).
        rewrite main_events_length in Hw.
        destruct (hist_step_tid s (ActRun 0)) as [->|(tid & ev & -> & _)];
          [lia|].
        unfold proj, lhist. simpl filter.
        destruct (Nat.eqb tid 0); simpl; fold (lhist 0 (hist s));
          fold (proj 0 (hist s)); lia.
    + rewrite (other_step_main_hist s a I Hne).
      destruct a as [[|i]| | |]; try lia. congruence.
Qed.

Lemma app_prefix_split (A : Type) (a b c d : list A) :
  a ++ b = c ++ d -> (List.length c <= List.length a)%nat ->
  exists x, a = c ++ x /\ d = x ++ b.
Proof.
  revert a. induction c as [|y c IH]; intros a H Hlen; simpl in *.
  - exists a. split; [reflexivity | now rewrite H].
  - destruct a as [|z a]; simpl in *; [lia|].
    injection H as -> H.
    destruct (IH a H ltac:(lia)) as (x & -> & ->).
    now exists x.
Qed.

Lemma notif_of_app (l r : list event) :
  notif_of (l ++ r) = (notif_of l ++ notif_of r)%list.
Proof.
  induction l as [|ev l IH]; [reflexivity|].
  destruct ev as [a| | | | | |]; simpl; try exact IH.
  destruct a; simpl; try exact IH. now rewrite IH, app_assoc.
Qed.

(** A beginning of the shutdown. *)
Lemma shutdown_prefix (sg : Signal) (x r : list event) :
  x ++ r = shutdown_events sg ->
  x = [] \/ exists x', x = EvRecv sg :: x' /\ count_go x = O /\
                       notif_of (rev x) = [].
Proof.
  intros H. symmetry in H. apply prefix_firstn in H.
  destruct (List.length x) as [|[|[|[|[|n]]]]]; simpl in H;
    rewrite ?firstn_nil in H; subst x;
    [now left|right; eexists; (split; [reflexivity|split; reflexivity])..].
Qed.

Lemma startup_list_facts (w : World) (fl : Flags) (cfg : Config) (data : string) :
  let l := map EvDo (load_prefix fl) ++ startup_events w cfg data in
  List.length l = (List.length (load_prefix fl) + 25)%nat /\
  count_go l = 3%nat /\ notif_of (rev l) = [SIGINT; SIGTERM] /\
  stop_of (rev l) = Open.
Proof.
  unfold load_prefix. destruct (String.eqb (configPath fl) "");
    repeat split; reflexivity.
Qed.

Lemma proj_main_events (s : State) : proj 0 (hist s) = rev (main_events s).
Proof. unfold main_events. now rewrite rev_involutive. Qed.

(** A main flow whose script begins with a receive is the wait of
    [waitForSignal]. *)
Lemma main_at_receive (h : list event) (main : proc) (sg : Signal) (n : nat)
      (rest : list event) :
  main_ok h main -> script sg n main = EvRecv sg :: rest ->
  main = await_signal shutdown_tail.
Proof. intros H Hs. inversion H; subst; simpl in Hs; try discriminate. reflexivity. Qed.

(** ** Factories, times and the stop channel *)

(** A factory is started by its own goroutine. *)
Lemma factory_thread (h : list entry) (e : entry) (f : Factory) :
  hist_ok h -> In e h -> e_ev e = EvDo (Factory_Start f) ->
  e_tid e = match f with
            | CoreSharedInformerFactory => 1%nat
            | SharedInformerFactory => 2%nat
            end.
Proof.
  intros Hok He Hev.
  destruct (in_split _ _ He) as (newer & older & ->).
  apply hist_ok_split in Hok. destruct Hok as [[_ Hem] _].
  destruct (entry_cases older e Hem)
    as [[_ Hm]|[(Ht & _ & _ & H1)|[(Ht & _ & Hd)|(_ & _ & Hs)]]].
  - rewrite Hev in Hm. simpl in Hm. discriminate.
  - rewrite Hev in H1. now injection H1 as ->.
  - destruct Hd as [[H _]|[[H _]|[H _]]]; rewrite Hev in H; try discriminate.
    now injection H as ->.
  - not_server Hs Hev.
Qed.

Lemma thread_step_clock (s s' : State) (p p' : proc) (ev : event) :
  thread_step s p = Some (ev, p', s') -> clock s' = clock s.
Proof.
  destruct p; simpl; try discriminate.
  - destruct (exec_prim a s) as [ev0 s0] eqn:Hx. intros H.
    injection H as <- <- <-.
    destruct a; simpl in Hx; try (now injection Hx as <- <-).
    destruct (stop s); now injection Hx as <- <-.
  - intros H. now injection H as <- <- <-.
  - intros H. now injection H as <- <- <-.
  - destruct (t <=? clock s); [|discriminate].
    intros H. now injection H as <- <- <-.
  - destruct (sigCh s); [discriminate|].
    intros H. now injection H as <- <- <-.
Qed.

(** The clock never runs backwards. *)
Lemma clock_step (s : State) (a : action) : clock s <= clock (step s a).
Proof.
  unfold step. destruct (exit_code s); [lia|].
  destruct a as [tid|dt|sg|tid err].
  - destruct (nth_error (threads s) tid) as [p|]; [|lia].
    destruct (thread_step s p) as [[[ev p'] s']|] eqn:Hts; [|lia].
    apply thread_step_clock in Hts. unfold commit. simpl. lia.
  - simpl. lia.
  - destruct (_ && _); simpl; lia.
  - destruct (nth_error (threads s) tid) as [p|]; [|lia].
    destruct p; try lia.
    destruct (srv_may_return s err); simpl; lia.
Qed.

(** Every entry is stamped at or after the start of the process. *)
Lemma times_nonneg (sched : list action) :
  forall s : State,
    0 <= clock s -> (forall e, In e (hist s) -> 0 <= e_time e) ->
    forall e, In e (hist (run s sched)) -> 0 <= e_time e.
Proof.
  induction sched as [|a sched IH]; intros s Hc Hh; [exact Hh|].
  simpl. apply IH.
  - pose proof (clock_step s a). lia.
  - intros e He.
    destruct (hist_step s a) as [E|(tid & ev & E)]; rewrite E in He.
    + now apply Hh.
    + destruct He as [<-|He]; [exact Hc | now apply Hh].
Qed.

Lemma stop_of_open_In (l : list event) :
  stop_of l = Open -> In (EvDo Make_Stop) l.
Proof.
  induction l as [|ev l IH]; simpl; [discriminate|].
  destruct ev as [a| | | | | |]; try (intros H; right; now apply IH).
  destruct a; intros H; try discriminate; try (now left);
    right; now apply IH.
Qed.

Lemma stop_of_nochan_made (l : list event) :
  stop_of l = NoChan -> ~ In (EvDo Make_Stop) l.
Proof.
  induction l as [|ev l IH]; simpl; [tauto|].
  destruct ev as [a| | | | | |];
    try (intros H [Hd|Hin]; [discriminate | now apply IH]).
  destruct a; intros H; try discriminate;
    intros [Hd|Hin]; try discriminate; now apply IH.
Qed.

(** A goroutine is created after the stop channel. *)
Lemma go_after_make (newer older : list entry) (g : entry) (n : nat) :
  hist_ok (newer ++ g :: older) -> e_ev g = EvGo n ->
  e_tid g = O /\
  exists m, In m older /\ e_tid m = O /\ e_ev m = EvDo Make_Stop.
Proof.
  intros Hok Hev.
  apply hist_ok_split in Hok. destruct Hok as [[_ Hem] Hok].
  assert (Hfirst : forall o1 g1,
             hist_ok o1 -> emit_ok o1 g1 -> e_ev g1 = EvGo 1 ->
             exists m, In m o1 /\ e_tid m = O /\ e_ev m = EvDo Make_Stop).
  { intros o1 g1 Hok1 Hem1 Hev1.
    destruct (entry_cases o1 g1 Hem1)
      as [[_ Hm]|[(_ & _ & _ & H1)|[(_ & _ & Hd)|(_ & _ & Hs)]]].
    - rewrite Hev1 in Hm. destruct Hm as (Hn & child & Hgo).
      unfold ok_go in Hgo. injection Hn as Hn. rewrite <- Hn in Hgo.
      destruct Hgo as (_ & _ & Hopen).
      apply stop_of_open_In in Hopen. apply proj_In in Hopen.
      destruct Hopen as (m & Hm1 & Hm2 & Hm3). eauto.
    - rewrite Hev1 in H1. discriminate.
    - not_delayed Hd Hev1.
    - not_server Hs Hev1. }
  destruct (entry_cases older g Hem)
    as [[Ht Hm]|[(_ & _ & _ & H1)|[(_ & _ & Hd)|(_ & _ & Hs)]]].
  - split; [exact Ht|]. rewrite Hev in Hm. destruct Hm as (Hn & child & Hgo).
    destruct (count_go (proj 0 older)) as [|c] eqn:Hc.
    + subst n. now apply (Hfirst older g).
    + assert (Hin : In (EvGo 1) (proj 0 older)).
      { apply go_numbered; [now apply hist_ok_main | lia]. }
      apply proj_In in Hin. destruct Hin as (g1 & Hg1 & _ & Hg1ev).
      destruct (in_split _ _ Hg1) as (n1 & o1 & Heq). rewrite Heq in Hok.
      apply hist_ok_split in Hok. destruct Hok as [[_ Hem1] Hok1].
      destruct (Hfirst o1 g1 Hok1 Hem1 Hg1ev) as (m & Hm1 & Hm2 & Hm3).
      exists m. split; [|auto]. rewrite Heq. now apply In_older.
  - rewrite Hev in H1. discriminate.
  - not_delayed Hd Hev.
  - not_server Hs Hev.
Qed.

Lemma proj_app (tid : nat) (a b : list entry) :
  proj tid (a ++ b) = proj tid a ++ proj tid b.
Proof. unfold proj, lhist. now rewrite filter_app, map_app. Qed.

Lemma app_cons_after (A : Type) (c : A) (l : list A) :
  ~ In c l ->
  forall a b x, a ++ c :: b = l ++ x -> exists a', a = l ++ a'.
Proof.
  induction l as [|y l IH]; intros Hc a b x H.
  - now exists a.
  - destruct a as [|z a]; simpl in H.
    + injection H as -> _. exfalso. apply Hc. now left.
    + injection H as -> H.
      destruct (IH (fun Hin => Hc (or_intror Hin)) a b x H) as (a' & ->).
      now exists a'.
Qed.

(** When a step of the initialisation fails, [Run] never closes the stop
    channel. *)
Lemma script_failure_close (w : World) (fl : Flags) (sg : Signal) :
  init_failure w fl = true ->
  ~ In (EvDo Close_Stop) (script sg 0 (Run w fl)).
Proof.
  assert (Hs : forall cfg, startup_failure w cfg = true ->
                 ~ In (EvDo Close_Stop) (script sg 0 (startup w cfg))).
  { intros cfg. unfold startup_failure, startup.
    destruct (NewLogger w _ _).
    { intros _ H. simpl in H.
      repeat (destruct H as [H|H]; [discriminate|]). exact H. }
    destruct (MarshalIndent w cfg) as [data [e|]].
    { intros _ H. simpl in H.
      repeat (destruct H as [H|H]; [discriminate|]). exact H. }
    destruct (InitInformer w cfg).
    { intros _ H. simpl in H.
      repeat (destruct H as [H|H]; [discriminate|]). exact H. }
    destruct (NewServer w cfg); [|discriminate].
    intros _ H. simpl in H.
    repeat (destruct H as [H|H]; [discriminate|]). exact H. }
  unfold init_failure, Run.
  destruct (String.eqb (configPath fl) ""); cbv beta iota zeta; unfold negb;
    [apply Hs|].
  destruct (NewConfigFromFile w (configPath fl)).
  - intros Hf [H|H]; [discriminate | now apply (Hs c)].
  - intros _ H. simpl in H.
    repeat (destruct H as [H|H]; [discriminate|]). exact H.
Qed.

(** The stop channel is closed after all of the start-up: every statement
    of lines 90 to 166 has an entry older than the close. *)
Lemma close_after_startup (w : World) (fl : Flags) (sched : list action)
      (newer older : list entry) (e : entry) :
  hist (run (init w fl) sched) = newer ++ e :: older ->
  e_ev e = EvDo Close_Stop ->
  exists cfg data,
    settled_config w fl = Some cfg /\
    forall ev,
      In ev (map EvDo (load_prefix fl) ++ startup_events w cfg data) ->
      exists o, In o older /\ e_tid o = O /\ e_ev o = ev.
Proof.
  intros Hh Hev.
  pose proof (inv_hist _ (Inv_reachable w fl sched)) as Hok.
  rewrite Hh in Hok.
  destruct (close_entry newer older e Hok Hev) as (Ht & _).
  destruct (main_script w fl sched) as (main & sg & _ & _ & Hs).
  unfold main_events in Hs. rewrite Hh, proj_app in Hs.
  rewrite (proj_cons_same 0 e older Ht), Hev in Hs.
  rewrite rev_app_distr in Hs. simpl rev in Hs.
  rewrite <- !app_assoc in Hs. simpl app in Hs.
  destruct (init_failure w fl) eqn:Hf.
  { exfalso. apply (script_failure_close w fl sg Hf).
    rewrite Hs. apply in_or_app. right. now left. }
  destruct (script_success w fl Hf) as (cfg & data & Hcfg & _ & _ & _ & _ & Hsc).
  exists cfg, data. split; [exact Hcfg|].
  rewrite Hsc, app_assoc in Hs. symmetry in Hs.
  apply app_cons_after in Hs.
  - destruct Hs as (a' & Ha). intros ev Hin.
    assert (Hin' : In ev (proj 0 older)).
    { apply in_rev. rewrite Ha. apply in_or_app. now left. }
    apply proj_In in Hin'. destruct Hin' as (o & Ho & Hot & Hoe). eauto.
  - intros Hin. apply in_app_or in Hin. destruct Hin as [Hin|Hin].
    + unfold load_prefix in Hin.
      destruct (String.eqb (configPath fl) ""); simpl in Hin;
        [contradiction|]. destruct Hin as [Hin|[]]. discriminate.
    + simpl in Hin.
      repeat (destruct Hin as [Hin|Hin]; [discriminate|]). contradiction.
Qed.

(** ** The metrics collector and [dief] *)

Lemma script_collector (w : World) (fl : Flags) (sg : Signal)
      (name ns : string) :
  In (EvDo (Metrics_NewPrometheusCollector name ns)) (script sg 0 (Run w fl)) ->
  name = Getenv w "POD_NAME" /\ ns = podNamespace w.
Proof.
  assert (Hs : forall cfg,
             In (EvDo (Metrics_NewPrometheusCollector name ns))
                (script sg 0 (startup w cfg)) ->
             name = Getenv w "POD_NAME" /\ ns = podNamespace w).
  { intros cfg. unfold startup.
    destruct (NewLogger w _ _).
    { intros H. simpl in H.
      repeat (destruct H as [H|H]; [discriminate|]). contradiction. }
    destruct (MarshalIndent w cfg) as [data [e|]].
    { intros H. simpl in H.
      repeat (destruct H as [H|H]; [discriminate|]). contradiction. }
    destruct (InitInformer w cfg).
    { intros H. simpl in H.
      repeat (destruct H as [H|H]; [discriminate|]). contradiction. }
    destruct (NewServer w cfg); intros H; simpl in H;
      do 7 (destruct H as [H|H]; [discriminate|]);
      (destruct H as [H|H];
       [injection H as <- <-; split; reflexivity
       |repeat (destruct H as [H|H]; [discriminate|]); contradiction]). }
  unfold Run.
  destruct (String.eqb (configPath fl) ""); cbv beta iota zeta; unfold negb;
    [apply Hs|].
  destruct (NewConfigFromFile w (configPath fl)).
  - intros [H|H]; [discriminate | now apply (Hs c)].
  - intros H. simpl in H.
    repeat (destruct H as [H|H]; [discriminate|]). contradiction.
Qed.

Lemma podNamespace_not_empty (w : World) : podNamespace w <> EmptyString.
Proof.
  unfold podNamespace.
  destruct (String.eqb (Getenv w "POD_NAMESPACE") "") eqn:E; [discriminate|].
  intros H. rewrite H in E. discriminate.
Qed.

(** [strings.HasSuffix] says whether the string ends with the suffix. *)
Lemma substring_all (s : string) : substring 0 (String.length s) s = s.
Proof. induction s as [|c s IH]; simpl; [reflexivity | now rewrite IH]. Qed.

Lemma substring_append (p s : string) :
  substring (String.length p) (String.length s) (p ++ s) = s.
Proof.
  induction p as [|c p IH]; simpl; [apply substring_all | exact IH].
Qed.

Lemma length_append (p s : string) :
  String.length (p ++ s) = (String.length p + String.length s)%nat.
Proof. induction p as [|c p IH]; simpl; [reflexivity | now rewrite IH]. Qed.

Lemma substring_split (s : string) :
  forall k, (k <= String.length s)%nat ->
    s = (substring 0 k s ++ substring k (String.length s - k) s)%string.
Proof.
  induction s as [|c s IH]; intros k Hk; simpl in *.
  - destruct k; reflexivity.
  - destruct k as [|k]; simpl.
    + now rewrite substring_all.
    + f_equal. apply IH. lia.
Qed.

Lemma HasSuffix_spec (s suffix : string) :
  HasSuffix s suffix = true <-> exists p, s = (p ++ suffix)%string.
Proof.
  unfold HasSuffix. split.
  - intros H. apply andb_true_iff in H. destruct H as [Hle Heq].
    apply Nat.leb_le in Hle. apply String.eqb_eq in Heq.
    exists (substring 0 (String.length s - String.length suffix) s).
    pose proof (substring_split s (String.length s - String.length suffix)
                  ltac:(lia)) as Hsp.
    replace (String.length s - (String.length s - String.length suffix))%nat
      with (String.length suffix) in Hsp by lia.
    now rewrite Heq in Hsp.
  - intros (p & ->). rewrite length_append.
    apply andb_true_iff. split; [apply Nat.leb_le; lia|].
    apply String.eqb_eq.
    replace (String.length p + String.length suffix - String.length suffix)%nat
      with (String.length p) by lia.
    apply substring_append.
Qed.

(** ** The settings in use *)

Lemma script_uses_config (w : World) (fl : Flags) (cfg : Config)
      (sg : Signal) (ev : event) :
  settled_config w fl = Some cfg ->
  In ev (script sg 0 (Run w fl)) -> uses_config cfg ev.
Proof.
  intros Hcfg. rewrite (Run_settled w fl cfg Hcfg), script_fold.
  intros H. apply in_app_or in H. destruct H as [H|H].
  - unfold load_prefix in H.
    destruct (String.eqb (configPath fl) ""); simpl in H; [contradiction|].
    destruct H as [<-|[]]. exact I.
  - unfold startup in H.
    destruct (NewLogger w _ _).
    { simpl in H. repeat (destruct H as [<-|H]; [simpl; auto|]). contradiction. }
    destruct (MarshalIndent w cfg) as [data [e|]].
    { simpl in H. repeat (destruct H as [<-|H]; [simpl; auto|]). contradiction. }
    destruct (InitInformer w cfg).
    { simpl in H. repeat (destruct H as [<-|H]; [simpl; auto|]). contradiction. }
    destruct (NewServer w cfg); simpl in H;
      repeat (destruct H as [<-|H]; [simpl; auto|]); contradiction.
Qed.

(** ** The line written by [dief] *)

(** X1: [dief] (lines 38 to 44) writes one template and ends the process
    with status 1; the template it hands to [fmt.Fprintf] always ends
    with a line feed: it is the caller's template when that ends with a
    line feed already (no second one is added), and the caller's template
    followed by a line feed otherwise. *)
Theorem dief_ends_the_line (template : string) (args : list string) :
  exists t,
    dief template args = (Fprintf_Stderr t args ;; Os_Exit 1 ;; Done)%proc /\
    (exists p, t = (p ++ nl)%string) /\
    ((exists p, template = (p ++ nl)%string) -> t = template) /\
    (~ (exists p, template = (p ++ nl)%string) -> t = (template ++ nl)%string).
Proof.
  unfold dief. destruct (HasSuffix template nl) eqn:E; simpl.
  - exists template. split; [reflexivity|].
    split; [now apply HasSuffix_spec|].
    split; [reflexivity|].
    intros H. exfalso. apply H. now apply HasSuffix_spec.
  - exists (template ++ nl)%string. split; [reflexivity|].
    split; [now exists template|].
    split; [|reflexivity].
    intros H. apply HasSuffix_spec in H. congruence.
Qed.

(** * Further properties, under every schedule *)

Section Further.

Variables (w : World) (fl : Flags) (sched : list action).

Let s : State := run (init w fl) sched.

Let reachable : Inv s := Inv_reachable w fl sched.

(** ** Failures between the logger and the goroutines *)

(** X2: when the configuration cannot be encoded for the log (lines 100 to
    103), the main flow stays alone and does, in this order: the load of
    the file if any, the logger, the start line of the log, the encoding,
    one line on the error stream that shows the encoder's output (not its
    error), [os.Exit(1)].  Under every schedule the history is the
    beginning of this list that the main flow has been given the time
    for; the process has ended, with status 1, exactly when the list is
    through. *)
Theorem encode_failure_exits (cfg : Config) (data err : string) :
  settled_config w fl = Some cfg ->
  NewLogger w (LogLevel cfg) (LogOutput cfg) = None ->
  MarshalIndent w cfg = (data, Some err) ->
  let stmts :=
    load_prefix fl ++
    [ Log_NewLogger (LogLevel cfg) (LogOutput cfg);
      Set_DefaultLogger;
      Log_Info ["apisix ingress controller started"%string];
      Json_MarshalIndent cfg;
      Fprintf_Stderr ("failed to show configuration: %s" ++ nl) [data];
      Os_Exit 1 ] in
  events s = map (fun a => (O, EvDo a)) (firstn (count_main sched) stmts) /\
  List.length (threads s) = 1%nat /\
  (exit_code s = Some 1 <-> (List.length stmts <= count_main sched)%nat) /\
  (forall c, exit_code s = Some c -> c = 1).
Proof.
  intros Hcfg Hlog Henc stmts.
  set (pre := load_prefix fl ++
    [ Log_NewLogger (LogLevel cfg) (LogOutput cfg);
      Set_DefaultLogger;
      Log_Info ["apisix ingress controller started"%string];
      Json_MarshalIndent cfg;
      Fprintf_Stderr ("failed to show configuration: %s" ++ nl) [data] ]).
  assert (E : stmts = pre ++ [Os_Exit 1]).
  { unfold stmts, pre. now rewrite <- app_assoc. }
  rewrite E. apply straight_run.
  - rewrite (Run_settled w fl cfg Hcfg), <- E. unfold stmts.
    rewrite <- seq_prims_app. unfold startup. now rewrite Hlog, Henc.
  - unfold pre. apply Forall_app. split; [apply load_prefix_plain|].
    repeat constructor.
Qed.

(** X3: when the informers cannot be initialised (lines 107 to 110), the
    main flow stays alone: the base URL of the configuration has been
    set, no stop channel, handler or goroutine exists yet, and the
    statements are, in this order, the ones below; the process has ended,
    with status 1, exactly when the list is through. *)
Theorem informer_failure_exits (cfg : Config) (data err : string) :
  settled_config w fl = Some cfg ->
  NewLogger w (LogLevel cfg) (LogOutput cfg) = None ->
  MarshalIndent w cfg = (data, None) ->
  InitInformer w cfg = Some err ->
  let stmts :=
    load_prefix fl ++
    [ Log_NewLogger (LogLevel cfg) (LogOutput cfg);
      Set_DefaultLogger;
      Log_Info ["apisix ingress controller started"%string];
      Json_MarshalIndent cfg;
      Log_Info [("use configuration" ++ nl)%string; data];
      Conf_SetBaseUrl (BaseURL (APISIX cfg));
      Kube_InitInformer cfg;
      Fprintf_Stderr ("failed to initialize kube informers: %s" ++ nl) [err];
      Os_Exit 1 ] in
  events s = map (fun a => (O, EvDo a)) (firstn (count_main sched) stmts) /\
  List.length (threads s) = 1%nat /\
  (exit_code s = Some 1 <-> (List.length stmts <= count_main sched)%nat) /\
  (forall c, exit_code s = Some c -> c = 1).
Proof.
  intros Hcfg Hlog Henc Hinf stmts.
  set (pre := load_prefix fl ++
    [ Log_NewLogger (LogLevel cfg) (LogOutput cfg);
      Set_DefaultLogger;
      Log_Info ["apisix ingress controller started"%string];
      Json_MarshalIndent cfg;
      Log_Info [("use configuration" ++ nl)%string; data];
      Conf_SetBaseUrl (BaseURL (APISIX cfg));
      Kube_InitInformer cfg;
      Fprintf_Stderr ("failed to initialize kube informers: %s" ++ nl) [err] ]).
  assert (E : stmts = pre ++ [Os_Exit 1]).
  { unfold stmts, pre. now rewrite <- app_assoc. }
  rewrite E. apply straight_run.
  - rewrite (Run_settled w fl cfg Hcfg), <- E. unfold stmts.
    rewrite <- seq_prims_app. unfold startup. now rewrite Hlog, Henc, Hinf.
  - unfold pre. apply Forall_app. split; [apply load_prefix_plain|].
    repeat constructor.
Qed.

(** ** A failure of [api.NewServer] *)

(** X4: when [api.NewServer] fails (lines 154 to 157), the two informer
    goroutines have been created already.  Under every schedule the main
    flow has done a beginning of: the twenty-two statements up to
    [api.NewServer], the line "failed to create API Server: ..." on the
    error stream, [os.Exit(1)]; the server goroutine is never created
    (at most three threads exist, [srv.Run] never returns anything); the
    process ends with status 1 only, and has ended once the main flow has
    run the list; and there is a schedule in which the core factory has
    been started when the process ends. *)
Theorem server_creation_failure (cfg : Config) (data err : string) :
  settled_config w fl = Some cfg ->
  NewLogger w (LogLevel cfg) (LogOutput cfg) = None ->
  MarshalIndent w cfg = (data, None) ->
  InitInformer w cfg = None ->
  NewServer w cfg = Some err ->
  let stmts :=
    map EvDo (load_prefix fl) ++
    firstn 22 (startup_events w cfg data) ++
    [ EvDo (Fprintf_Stderr ("failed to create API Server: %s" ++ nl) [err]);
      EvDo (Os_Exit 1) ] in
  (exists n, main_events s = firstn n stmts) /\
  (List.length (threads s) <= 3)%nat /\
  (forall e, In e (hist s) ->
     (e_tid e <= 2)%nat /\ forall r, e_ev e <> EvSrvReturn r) /\
  (forall c, exit_code s = Some c -> c = 1) /\
  ((List.length stmts <= count_main sched)%nat -> exit_code s = Some 1) /\
  (exists sched',
      let s' := run (init w fl) sched' in
      exit_code s' = Some 1 /\
      In (1%nat, EvDo (Factory_Start CoreSharedInformerFactory)) (events s')).
Proof.
  intros Hcfg Hlog Henc Hinf Hsrv stmts.
  pose proof reachable as I.
  assert (Hscript : forall sg, script sg 0 (Run w fl) = stmts).
  { intros sg. rewrite (Run_settled w fl cfg Hcfg), script_fold.
    rewrite (script_startup w cfg data sg Hlog Henc Hinf), Hsrv.
    reflexivity. }
  assert (Hpre : exists n, main_events s = firstn n stmts).
  { destruct (main_script w fl sched) as (main & sg & _ & _ & Hs).
    fold s in Hs. rewrite Hscript in Hs.
    exists (List.length (main_events s)).
    now apply prefix_firstn with (b := script sg (count_go (main_events s)) main). }
  assert (Hgo : (count_go (main_events s) <= 2)%nat).
  { destruct Hpre as (n & Hn). rewrite Hn.
    assert (Hc : count_go stmts = 2%nat).
    { unfold stmts. rewrite count_go_app.
      replace (count_go (map EvDo (load_prefix fl))) with O; [reflexivity|].
      unfold load_prefix. now destruct (String.eqb (configPath fl) ""). }
    pose proof (count_go_firstn n stmts). lia. }
  assert (Hthr : (List.length (threads s) <= 3)%nat).
  { rewrite (threads_count s I). lia. }
  assert (Hdies : dies_in (Run w fl) = Some (List.length stmts, 2%nat)).
  { rewrite (Run_settled w fl cfg Hcfg). unfold stmts, load_prefix, startup.
    rewrite Hlog, Henc, Hinf, Hsrv.
    destruct (String.eqb (configPath fl) ""); reflexivity. }
  destruct (fatal_run sched (init w fl) (Run w fl) [] _ _
              (Inv_init w fl) eq_refl eq_refl Hdies) as [Hc1 Hc2];
    [simpl; lia|].
  split; [exact Hpre|]. split; [exact Hthr|].
  split; [|split; [exact Hc1|split; [exact Hc2|]]].
  - intros e He. pose proof (inv_tids s I e He) as Ht.
    split; [lia|]. intros r Hev.
    pose proof (inv_hist s I) as Hok.
    destruct (in_split _ _ He) as (newer & older & Hh). rewrite Hh in Hok.
    apply hist_ok_split in Hok. destruct Hok as [[_ Hem] _].
    destruct (entry_cases older e Hem)
      as [[_ Hm]|[(_ & _ & _ & H1)|[(_ & _ & Hd)|(H3 & _)]]].
    + rewrite Hev in Hm. exact Hm.
    + rewrite Hev in H1. discriminate.
    + not_delayed Hd Hev.
    + lia.
  - exists (repeat (ActRun 0) (List.length (load_prefix fl) + 16)
            ++ ActRun 1 :: repeat (ActRun 0) 8).
    assert (HR : Run w fl =
                 fold_right Do (startup w cfg) (load_prefix fl))
      by exact (Run_settled w fl cfg Hcfg).
    unfold init. rewrite HR. unfold load_prefix, startup.
    rewrite Hlog, Henc, Hinf, Hsrv.
    destruct (String.eqb (configPath fl) ""); vm_compute;
      (split; [reflexivity|]); repeat first [left; reflexivity | right].
Qed.

(** ** The signal channel *)


(** ** The shutdown *)

(** X6: the shutdown waits for no goroutine (lines 159 to 167).  When the
    main flow waits in [waitForSignal] and a signal is in the channel,
    then under every continuation that runs the main flow five times the
    process has ended: with status 0, or with status 1 when the server
    goroutine, after an error of [srv.Run], called [os.Exit(1)] first.
    When the main flow runs its five statements in a row, the process
    ends with status 0, the stop channel closed, and every goroutine left
    at the statement where it was. *)
Theorem shutdown_without_join :
  exit_code s = None ->
  nth_error (threads s) 0 = Some (await_signal shutdown_tail) ->
  sigCh s <> [] ->
  (forall more,
      (5 <= count_main more)%nat ->
      exit_code (run s more) = Some 0 \/
      (exit_code (run s more) = Some 1 /\
       exists e rest,
         hist (run s more) = e :: rest /\ e_tid e = 3%nat /\
         e_ev e = EvDo (Os_Exit 1))) /\
  (let s' := run s (repeat (ActRun 0) 5) in
   exit_code s' = Some 0 /\ stop s' = Closed /\
   forall i, nth_error (threads s') (S i) = nth_error (threads s) (S i)).
Proof.
  intros Hal Hp Hq. pose proof reachable as I. split.
  - intros more Hn.
    pose proof (await_run more s I Hp Hq Hn) as Hend.
    assert (I' : Inv (run s more)) by now apply Inv_run.
    destruct (exit_code (run s more)) as [c|] eqn:Hc; [|congruence].
    destruct (exit_cases (run s more) c I' Hc)
      as (e & rest & Hh & [(-> & _)|(-> & Hev & _)]); [now left|].
    right. split; [reflexivity|]. exists e, rest.
    split; [exact Hh|]. split; [|exact Hev].
    pose proof (inv_hist _ I') as Hok. rewrite Hh in Hok.
    destruct Hok as [[_ Hem] _].
    destruct (entry_cases rest e Hem)
      as [[Ht _]|[(_ & _ & _ & H1)|[(_ & _ & Hd)|(H3 & _)]]].
    + exfalso.
      destruct (awaiting_success w fl sched Hp) as [Hf _].
      apply (success_main_no_exit w fl (sched ++ more) e 1 Hf); auto.
      assert (Hrun : run (init w fl) (sched ++ more) = run s more).
      { unfold s, run. apply fold_left_app. }
      rewrite Hrun, Hh. now left.
    + rewrite Hev in H1. discriminate.
    + not_delayed Hd Hev.
    + exact H3.
  - destruct (inv_threads s I) as (main & kids & Hth & Hmain & _).
    rewrite Hth in Hp. injection Hp as ->.
    inversion Hmain as [| | |h0 Hsub Htail Hopen]; subst.
    assert (Ho : stop s = Open).
    { rewrite (inv_stop s I).
      destruct (stop_of (proj 0 (hist s))); try discriminate; reflexivity. }
    destruct (sigCh s) as [|sg q] eqn:Hs; [congruence|].
    destruct (receive_then_return s kids sg q Hal Hth Ho Hs)
      as (H1 & H2 & H3 & _).
    split; [exact H1|]. split; [exact H2|].
    intros i. rewrite H3, Hth. reflexivity.
Qed.

(** ** The start-up gets to the wait *)

(** X7: when no step of the initialisation fails, the main flow is never
    held up before [waitForSignal]: under every schedule, once it has been
    run for its twenty-five statements (one more with a configuration
    file) and the process is alive, it has done exactly the statements of
    lines 90 to 166 in the order of the file, the three goroutines exist,
    SIGINT and SIGTERM are subscribed, and the main flow waits for a
    signal or has received one. *)
Theorem startup_reaches_the_wait :
  init_failure w fl = false ->
  (List.length (load_prefix fl) + 25 <= count_main sched)%nat ->
  exit_code s = None ->
  exists cfg data more,
    settled_config w fl = Some cfg /\
    MarshalIndent w cfg = (data, None) /\
    main_events s =
      map EvDo (load_prefix fl) ++ startup_events w cfg data ++ more /\
    List.length (threads s) = 4%nat /\
    notified s = [SIGINT; SIGTERM] /\
    ((more = [] /\
      nth_error (threads s) 0 = Some (await_signal shutdown_tail)) \/
     (exists sg more', more = EvRecv sg :: more')).
Proof.
  intros Hf Hn Hal. pose proof reachable as I.
  destruct (script_success w fl Hf)
    as (cfg & data & Hcfg & _ & Henc & _ & _ & Hsc).
  destruct (startup_list_facts w fl cfg data) as (HL & Hgo & Hnot & _).
  set (l := map EvDo (load_prefix fl) ++ startup_events w cfg data) in *.
  destruct (main_advances w fl (List.length l)) with (sched := sched)
    as [Hx|Hlen].
  { intros sched0 Hw.
    destruct (awaiting_success w fl sched0 Hw) as (_ & cfg' & data' & _ & _ & ->).
    destruct (startup_list_facts w fl cfg' data') as (HL' & _). lia. }
  { fold s in Hx. congruence. }
  fold s in Hlen. rewrite Nat.min_l in Hlen by lia.
  destruct (main_script w fl sched) as (main & sg & Hm & Hsg & Hs).
  fold s in Hm, Hs. rewrite Hsc, app_assoc in Hs. fold l in Hs.
  destruct (app_prefix_split _ _ _ _ _ (eq_sym Hs) Hlen) as (x & Hx1 & Hx2).
  exists cfg, data, x. split; [exact Hcfg|]. split; [exact Henc|].
  split; [rewrite Hx1; unfold l; now rewrite <- app_assoc|].
  assert (Hx3 : count_go x = O /\ notif_of (rev x) = []).
  { destruct (shutdown_prefix sg x _ (eq_sym Hx2)) as [->|(x' & _ & H1 & H2)];
      auto. }
  split; [|split].
  - rewrite (threads_count s I), Hx1, count_go_app, Hgo.
    destruct Hx3 as [-> _]. reflexivity.
  - rewrite (inv_notified s I), proj_main_events, Hx1, rev_app_distr.
    rewrite notif_of_app, Hnot. destruct Hx3 as [_ ->]. reflexivity.
  - destruct (shutdown_prefix sg x _ (eq_sym Hx2)) as [->|(x' & -> & _)].
    + left. split; [reflexivity|]. rewrite Hm. f_equal.
      destruct (inv_threads s I) as (main0 & kids & Hth & Hmain & _).
      rewrite Hth in Hm. injection Hm as ->.
      simpl in Hx2. symmetry in Hx2.
      exact (main_at_receive _ main sg _ _ Hmain Hx2).
    + right. eauto.
Qed.

(** ** The factories *)

(** X8: each informer factory is started once at most, by its own
    goroutine (lines 138 and 149 to 152), and the custom-resource factory
    never within the first ten seconds of the process. *)
Theorem factories_started_once :
  (forall f newer e older,
      hist s = newer ++ e :: older -> e_ev e = EvDo (Factory_Start f) ->
      e_tid e = match f with
                | CoreSharedInformerFactory => 1%nat
                | SharedInformerFactory => 2%nat
                end /\
      forall o, In o older -> e_ev o <> EvDo (Factory_Start f)) /\
  (forall e,
      In e (hist s) -> e_ev e = EvDo (Factory_Start SharedInformerFactory) ->
      10 * Second <= e_time e).
Proof.
  pose proof reachable as I.
  pose proof (inv_hist s I) as Hok.
  split.
  - intros f newer e older Hh Hev.
    assert (He : In e (hist s)).
    { rewrite Hh. apply in_or_app. right. now left. }
    split; [now apply (factory_thread (hist s))|].
    intros o Ho Hoev.
    assert (Ho' : In o (hist s)) by (rewrite Hh; now apply In_older).
    pose proof (factory_thread (hist s) o f Hok Ho' Hoev) as Hot.
    rewrite Hh in Hok. apply hist_ok_split in Hok.
    destruct Hok as [[_ Hem] _].
    destruct (entry_cases older e Hem)
      as [[_ Hm]|[(_ & _ & Hnil & H1)|[(_ & _ & Hd)|(_ & _ & Hs)]]].
    + rewrite Hev in Hm. simpl in Hm. discriminate.
    + rewrite Hev in H1. injection H1 as ->.
      pose proof (In_proj 1 o older Ho Hot) as Hin.
      rewrite Hnil in Hin. exact Hin.
    + destruct Hd as [[H _]|[[H _]|[H Hl]]]; rewrite Hev in H;
        try discriminate.
      injection H as ->.
      destruct Hl as (wk & sl & Hl & Hwk & Hsl & _).
      assert (Hin : In o (lhist 2 older)) by (apply lhist_In; auto).
      rewrite Hl in Hin.
      destruct Hin as [<-|[<-|[]]]; congruence.
    + not_server Hs Hev.
  - intros e He Hev.
    destruct (in_split _ _ He) as (newer & older & Hh).
    rewrite Hh in Hok.
    destruct (crd_start_entry newer older e Hok Hev)
      as (_ & g & sl & _ & _ & _ & Hsl & _ & _ & _ & Hle).
    assert (H0 : 0 <= e_time sl).
    { apply (times_nonneg sched (init w fl)); simpl; [lia|tauto|].
      fold s. rewrite Hh. now apply In_older. }
    change (10 * Second) with warmup_delay. lia.
Qed.

(** ** The stop channel *)

(** X9: the stop channel is made once, by the main flow, before any
    goroutine is created (line 126); every goroutine is created after it;
    and it is closed only after all three goroutines have been created,
    so that no goroutine is handed a missing or an already closed
    channel by the [go] statement. *)
Theorem stop_channel_lifecycle :
  (forall newer e older,
      hist s = newer ++ e :: older -> e_ev e = EvDo Make_Stop ->
      e_tid e = O /\
      forall o, In o older ->
        e_ev o <> EvDo Make_Stop /\ forall n, e_ev o <> EvGo n) /\
  (forall newer e older n,
      hist s = newer ++ e :: older -> e_ev e = EvGo n ->
      exists m, In m older /\ e_tid m = O /\ e_ev m = EvDo Make_Stop) /\
  (forall newer e older n,
      hist s = newer ++ e :: older -> e_ev e = EvDo Close_Stop ->
      (1 <= n <= 3)%nat ->
      exists g, In g older /\ e_tid g = O /\ e_ev g = EvGo n).
Proof.
  pose proof reachable as I.
  pose proof (inv_hist s I) as Hok.
  split; [|split].
  - intros newer e older Hh Hev. rewrite Hh in Hok.
    pose proof Hok as Hok0.
    apply hist_ok_split in Hok. destruct Hok as [[_ Hem] Hok].
    assert (Hmain : e_tid e = O /\ stop_of (proj 0 older) = NoChan).
    { destruct (entry_cases older e Hem)
        as [[Ht Hm]|[(_ & _ & _ & H1)|[(_ & _ & Hd)|(_ & _ & Hs)]]].
      - split; [exact Ht|]. rewrite Hev in Hm. simpl in Hm.
        destruct (stop_of (proj 0 older)); try discriminate; reflexivity.
      - rewrite Hev in H1. discriminate.
      - not_delayed Hd Hev.
      - not_server Hs Hev. }
    destruct Hmain as [Ht Hno]. split; [exact Ht|].
    assert (Hnomake : forall o, In o older -> e_ev o <> EvDo Make_Stop).
    { intros o Ho Hoev.
      destruct (in_split _ _ Ho) as (n1 & o1 & Heq).
      pose proof Hok as Hok1. rewrite Heq in Hok1.
      apply hist_ok_split in Hok1. destruct Hok1 as [[_ Hem1] _].
      destruct (entry_cases o1 o Hem1)
        as [[Hot _]|[(_ & _ & _ & H1)|[(_ & _ & Hd)|(_ & _ & Hs)]]].
      - apply (stop_of_nochan_made _ Hno). rewrite <- Hoev.
        now apply In_proj.
      - rewrite Hoev in H1. discriminate.
      - not_delayed Hd Hoev.
      - not_server Hs Hoev. }
    intros o Ho. split; [now apply Hnomake|].
    intros n Hoev.
    destruct (in_split _ _ Ho) as (n1 & o1 & Heq).
    pose proof Hok as Hok1. rewrite Heq in Hok1.
    destruct (go_after_make n1 o1 o n Hok1 Hoev) as (_ & m & Hm & _ & Hmev).
    apply (Hnomake m); [|exact Hmev]. rewrite Heq. now apply In_older.
  - intros newer e older n Hh Hev. rewrite Hh in Hok.
    apply (go_after_make newer older e n Hok Hev).
  - intros newer e older n Hh Hev Hn.
    destruct (close_after_startup w fl sched newer older e Hh Hev)
      as (cfg & data & _ & Hall).
    apply Hall. apply in_or_app. right.
    destruct n as [|[|[|[|n]]]]; try lia; simpl; tauto.
Qed.

(** ** The metrics collector *)

(** X10: the metrics collector is created by the main flow with the pod
    name of the environment and a namespace that is never empty: the one
    of the environment, or "default" when [POD_NAMESPACE] is not set
    (lines 114 to 120). *)
Theorem collector_labels (e : entry) (name ns : string) :
  In e (hist s) ->
  e_ev e = EvDo (Metrics_NewPrometheusCollector name ns) ->
  e_tid e = O /\ name = Getenv w "POD_NAME" /\ ns <> EmptyString /\
  ns = (if String.eqb (Getenv w "POD_NAMESPACE") "" then "default"%string
        else Getenv w "POD_NAMESPACE").
Proof.
  intros He Hev.
  pose proof (inv_hist s reachable) as Hok.
  assert (Ht : e_tid e = O).
  { destruct (in_split _ _ He) as (newer & older & Hh). rewrite Hh in Hok.
    apply hist_ok_split in Hok. destruct Hok as [[_ Hem] _].
    destruct (entry_cases older e Hem)
      as [[Ht _]|[(_ & _ & _ & H1)|[(_ & _ & Hd)|(_ & _ & Hs)]]].
    - exact Ht.
    - rewrite Hev in H1. discriminate.
    - not_delayed Hd Hev.
    - not_server Hs Hev. }
  split; [exact Ht|].
  destruct (main_script w fl sched) as (main & sg & _ & _ & Hs).
  fold s in Hs.
  destruct (script_collector w fl sg name ns) as [-> ->].
  { rewrite Hs. apply in_or_app. left. unfold main_events.
    rewrite <- in_rev, <- Hev. now apply In_proj. }
  split; [reflexivity|]. split; [apply podNamespace_not_empty | reflexivity].
Qed.

(** ** Why the process ends *)


(** ** The order of the two starts *)

(** X12: the ten seconds do not order the two factory starts.  When no
    step of the initialisation fails, there is an execution in which the
    core factory is started first, and one in which its goroutine is
    given its turn only after the delayed goroutine has slept and started
    the custom-resource factory: no statement of the file makes the
    delayed goroutine wait for the core factory. *)
Theorem starts_not_ordered :
  init_failure w fl = false ->
  let n := (List.length (load_prefix fl) + 25)%nat in
  let s1 := run (init w fl)
              (repeat (ActRun 0) n ++
               [ActRun 1; ActRun 2; ActTick (10 * Second); ActRun 2; ActRun 2]) in
  let s2 := run (init w fl)
              (repeat (ActRun 0) n ++
               [ActRun 2; ActTick (10 * Second); ActRun 2; ActRun 2; ActRun 1]) in
  skipn n (events s1) =
    [ (1%nat, EvDo (Factory_Start CoreSharedInformerFactory));
      (2%nat, EvSleep (10 * Second)); (2%nat, EvWake);
      (2%nat, EvDo (Factory_Start SharedInformerFactory)) ] /\
  skipn n (events s2) =
    [ (2%nat, EvSleep (10 * Second)); (2%nat, EvWake);
      (2%nat, EvDo (Factory_Start SharedInformerFactory));
      (1%nat, EvDo (Factory_Start CoreSharedInformerFactory)) ].
Proof.
  intros Hf.
  destruct (script_success w fl Hf)
    as (cfg & data & Hcfg & Hlog & Henc & Hinf & Hsrv & _).
  unfold init. rewrite (Run_settled w fl cfg Hcfg).
  unfold load_prefix, startup. rewrite Hlog, Henc, Hinf, Hsrv.
  destruct (String.eqb (configPath fl) ""); vm_compute; split; reflexivity.
Qed.

(** ** The settings in use *)

(** X13: one configuration object is in use throughout.  In every
    execution the logger, the encoder, [kube.InitInformer] and
    [api.NewServer] are handed the settled configuration, and
    [conf.SetBaseUrl] its APISIX base URL; the custom-resource factory is
    created with the resync period 0, whatever [--resync-interval] says.
    Without [--config-path] the settled configuration has, field by
    field, the value of the flag or the default of lines 172 to 179; with
    it, it is the configuration of the file. *)
Theorem settings_in_use (cfg : Config) :
  settled_config w fl = Some cfg ->
  (forall e, In e (hist s) -> uses_config cfg (e_ev e)) /\
  (configPath fl = EmptyString ->
   LogLevel cfg = flag_or "info"%string (flag_log_level fl) /\
   LogOutput cfg = flag_or "stderr"%string (flag_log_output fl) /\
   HTTPListen cfg = flag_or ":8080"%string (flag_http_listen fl) /\
   EnableProfiling cfg = flag_or true (flag_enable_profiling fl) /\
   Kubeconfig (Kubernetes cfg) = flag_or EmptyString (flag_kubeconfig fl) /\
   ResyncInterval (Kubernetes cfg) =
     flag_or (60 * Second) (flag_resync_interval fl) /\
   BaseURL (APISIX cfg) = flag_or EmptyString (flag_apisix_base_url fl) /\
   AdminKey (APISIX cfg) = flag_or EmptyString (flag_apisix_admin_key fl)) /\
  (configPath fl <> EmptyString ->
   NewConfigFromFile w (configPath fl) = inl cfg).
Proof.
  intros Hcfg. split; [|split].
  - intros e He.
    pose proof (inv_hist s reachable) as Hok.
    destruct (in_split _ _ He) as (newer & older & Hh). rewrite Hh in Hok.
    apply hist_ok_split in Hok. destruct Hok as [[_ Hem] _].
    destruct (entry_cases older e Hem)
      as [[Ht _]|[(_ & _ & _ & H1)|[(_ & _ & Hd)|(_ & _ & Hs)]]].
    + destruct (main_script w fl sched) as (main & sg & _ & _ & Hsc).
      fold s in Hsc.
      apply (script_uses_config w fl cfg sg (e_ev e) Hcfg).
      rewrite Hsc. apply in_or_app. left. unfold main_events.
      rewrite <- in_rev. now apply In_proj.
    + now rewrite H1.
    + destruct Hd as [[H _]|[[H _]|[H _]]]; now rewrite H.
    + destruct Hs as [(r & H & _)|[(r & H & _)|(r & H & _)]]; now rewrite H.
  - intros Hp. unfold settled_config in Hcfg. rewrite Hp in Hcfg.
    simpl in Hcfg. injection Hcfg as <-. repeat split.
  - intros Hp. unfold settled_config in Hcfg.
    destruct (String.eqb (configPath fl) "") eqn:E.
    + apply configPath_empty in E. contradiction.
    + destruct (NewConfigFromFile w (configPath fl)); [|discriminate].
      now injection Hcfg as ->.
Qed.

End Further.

(** * The further properties at sample inputs *)

Lemma encode_failure_exits_witness :
  let sched := [ActRun 0; ActRun 0; ActTick Second; ActRun 0;
                ActSignal SIGINT; ActRun 0; ActRun 0; ActRun 0] in
  let s := run (init w_bad_encode no_flags) sched in
  exit_code s = Some 1 /\ List.length (threads s) = 1%nat /\
  events s =
    [ (O, EvDo (Log_NewLogger "info" "stderr"));
      (O, EvDo Set_DefaultLogger);
      (O, EvDo (Log_Info ["apisix ingress controller started"%string]));
      (O, EvDo (Json_MarshalIndent (bind_flags no_flags cfg_file)));
      (O, EvDo (Fprintf_Stderr ("failed to show configuration: %s" ++ nl)
                  [EmptyString]));
      (O, EvDo (Os_Exit 1)) ].
Proof.
  intros sched s.
  destruct (encode_failure_exits w_bad_encode no_flags sched
              (bind_flags no_flags cfg_file) "" "unsupported value"
              eq_refl eq_refl eq_refl) as (H1 & H2 & H3 & _).
  split; [apply H3; vm_compute; lia|]. split; [exact H2|].
  fold s in H1. rewrite H1. reflexivity.
Defined.

Lemma informer_failure_exits_witness :
  let sched := repeat (ActRun 0) 4 ++ ActSignal SIGTERM :: repeat (ActRun 0) 6 in
  let s := run (init w_bad_informer file_flags) sched in
  exit_code s = Some 1 /\ List.length (threads s) = 1%nat /\
  hd (O, EvWake) (rev (events s)) = (O, EvDo (Os_Exit 1)) /\
  nth 1 (rev (events s)) (O, EvWake) =
    (O, EvDo (Fprintf_Stderr ("failed to initialize kube informers: %s" ++ nl)
                ["no kubeconfig"%string])).
Proof.
  intros sched s.
  destruct (informer_failure_exits w_bad_informer file_flags sched
              cfg_file "{}" "no kubeconfig"
              eq_refl eq_refl eq_refl eq_refl) as (H1 & H2 & H3 & _).
  split; [apply H3; vm_compute; lia|]. split; [exact H2|].
  fold s in H1. rewrite H1. split; reflexivity.
Defined.

Lemma server_creation_failure_witness :
  let s := run (init w_bad_server no_flags) sched_startup in
  exit_code s = Some 1 /\ (List.length (threads s) <= 3)%nat.
Proof.
  intros s.
  destruct (server_creation_failure w_bad_server no_flags sched_startup
              (bind_flags no_flags cfg_file) "{}" "bad listen address"
              eq_refl eq_refl eq_refl eq_refl eq_refl)
    as (_ & H2 & _ & _ & H5 & _).
  split; [apply H5; vm_compute; lia | exact H2].
Defined.


Lemma shutdown_without_join_witness :
  let s := run (init w_good no_flags) (sched_startup ++ [ActSignal SIGTERM]) in
  let s' := run s (repeat (ActRun 0) 5) in
  exit_code s' = Some 0 /\ stop s' = Closed /\
  nth_error (threads s') 2 = Some delayed_task /\
  nth_error (threads s') 3 = Some server_task.
Proof.
  intros s s'.
  destruct (shutdown_without_join w_good no_flags
              (sched_startup ++ [ActSignal SIGTERM]))
    as (_ & H1 & H2 & H3);
    [vm_compute; reflexivity | vm_compute; reflexivity
    | vm_compute; discriminate |].
  split; [exact H1|]. split; [exact H2|].
  split; (etransitivity; [apply H3|]); vm_compute; reflexivity.
Defined.

Lemma startup_reaches_the_wait_witness :
  let s := run (init w_good no_flags) sched_startup in
  exists cfg data more,
    settled_config w_good no_flags = Some cfg /\
    MarshalIndent w_good cfg = (data, None) /\
    main_events s =
      map EvDo (load_prefix no_flags) ++ startup_events w_good cfg data ++ more /\
    List.length (threads s) = 4%nat /\
    notified s = [SIGINT; SIGTERM] /\
    ((more = [] /\
      nth_error (threads s) 0 = Some (await_signal shutdown_tail)) \/
     (exists sg more', more = EvRecv sg :: more')).
Proof.
  intros s.
  apply (startup_reaches_the_wait w_good no_flags sched_startup);
    [reflexivity | vm_compute; lia | vm_compute; reflexivity].
Defined.

Lemma factories_started_once_witness :
  let s := run (init w_good no_flags) sched_started in
  e_ev (hd no_entry (hist s)) = EvDo (Factory_Start SharedInformerFactory) /\
  10 * Second <= e_time (hd no_entry (hist s)).
Proof.
  intros s. split; [vm_compute; reflexivity|].
  destruct (factories_started_once w_good no_flags sched_started) as (_ & H).
  apply H; [vm_compute; now left | vm_compute; reflexivity].
Defined.

Lemma stop_channel_lifecycle_witness :
  let s := run (init w_good no_flags) sched_closed in
  e_ev (hd no_entry (hist s)) = EvDo Close_Stop /\
  exists g, In g (tl (hist s)) /\ e_tid g = O /\ e_ev g = EvGo 3.
Proof.
  intros s. split; [vm_compute; reflexivity|].
  destruct (stop_channel_lifecycle w_good no_flags sched_closed) as (_ & _ & H).
  apply (H [] (hd no_entry (hist s)) (tl (hist s)) 3%nat);
    [vm_compute; reflexivity | vm_compute; reflexivity | lia].
Defined.

Lemma collector_labels_witness :
  let s := run (init w_good no_flags) sched_startup in
  e_ev (nth 17 (hist s) no_entry)
    = EvDo (Metrics_NewPrometheusCollector "" "default") /\
  "default"%string <> EmptyString.
Proof.
  intros s. split; [vm_compute; reflexivity|].
  destruct (collector_labels w_good no_flags sched_startup
              (nth 17 (hist s) no_entry) "" "default") as (_ & _ & H & _);
    [vm_compute; repeat first [left; reflexivity | right]
    | vm_compute; reflexivity | exact H].
Defined.


Lemma starts_not_ordered_witness :
  let s2 := run (init w_good file_flags)
              (repeat (ActRun 0) 26 ++
               [ActRun 2; ActTick (10 * Second); ActRun 2; ActRun 2; ActRun 1]) in
  skipn 26 (events s2) =
    [ (2%nat, EvSleep (10 * Second)); (2%nat, EvWake);
      (2%nat, EvDo (Factory_Start SharedInformerFactory));
      (1%nat, EvDo (Factory_Start CoreSharedInformerFactory)) ].
Proof.
  intros s2.
  destruct (starts_not_ordered w_good file_flags eq_refl) as (_ & H).
  exact H.
Defined.

Lemma settings_in_use_witness :
  let s := run (init w_good no_flags) sched_startup in
  uses_config (bind_flags no_flags cfg_file) (e_ev (nth 24 (hist s) no_entry)) /\
  e_ev (nth 24 (hist s) no_entry) = EvDo (Log_NewLogger "info" "stderr") /\
  ResyncInterval (Kubernetes (bind_flags no_flags cfg_file)) = 60000000000.
Proof.
  intros s.
  destruct (settings_in_use w_good no_flags sched_startup
              (bind_flags no_flags cfg_file) eq_refl) as (H1 & H2 & _).
  split; [|split].
  - apply H1. vm_compute. repeat first [left; reflexivity | right].
  - vm_compute. reflexivity.
  - destruct (H2 eq_refl) as (_ & _ & _ & _ & _ & H & _). exact H.
Defined.
